(** * codelang-lsp: the document analysis engine of [server/src/server.ts]

    A shallow embedding of the language server's analysis code: the function
    and variable declaration extractors, the ALL-CAPS validator, the
    completion handler and the diagnostics handler, together with the part of
    the JavaScript runtime they rest on (strings as sequences of UTF-16 code
    units, [split], [trim], and the backtracking semantics of the regular
    expressions the program uses). *)

From Stdlib Require Import NArith ZArith Lia.
From stdpp Require Import base option list strings gmap.

Local Open Scope N_scope.

(** ** The JavaScript runtime the server relies on *)

Module Js.

(** A JavaScript string is a sequence of UTF-16 code units. *)
Definition char : Type := N.
Definition jsstring : Type := list char.

Definition str (s : string) : jsstring :=
  map Ascii.N_of_ascii (String.list_ascii_of_string s).

(** Outcome of running a piece of the program: a value, a thrown
    [TypeError] (a string method called on [undefined]), or a loop that
    used up the steps it was given. *)
Inductive result (A : Type) : Type :=
| Ok (a : A)
| TypeError
| OutOfFuel.
Arguments Ok {A} a.
Arguments TypeError {A}.
Arguments OutOfFuel {A}.

Definition bind {A B} (x : result A) (f : A -> result B) : result B :=
  match x with
  | Ok a => f a
  | TypeError => TypeError
  | OutOfFuel => OutOfFuel
  end.

(** [forEach] over an array with a callback that threads the variables the
    callback closes over. *)
Fixpoint forEach {A St} (f : St -> A -> result St) (xs : list A) (s : St)
  : result St :=
  match xs with
  | [] => Ok s
  | x :: xs' => bind (f s x) (forEach f xs')
  end.

(** *** Character classes *)

(** WhiteSpace and LineTerminator code points: what [\s] matches and what
    [trim] strips. *)
Definition isWhiteSpace (c : char) : bool :=
  (c =? 9) || (c =? 10) || (c =? 11) || (c =? 12) || (c =? 13) ||
  (c =? 32) || (c =? 160) || (c =? 5760) ||
  ((8192 <=? c) && (c <=? 8202)) ||
  (c =? 8232) || (c =? 8233) || (c =? 8239) || (c =? 8287) ||
  (c =? 12288) || (c =? 65279).

Definition isLineTerminator (c : char) : bool :=
  (c =? 10) || (c =? 13) || (c =? 8232) || (c =? 8233).

Definition inRange (lo hi c : char) : bool := (lo <=? c) && (c <=? hi).

Definition isUpper (c : char) : bool := inRange 65 90 c.
Definition isLower (c : char) : bool := inRange 97 122 c.
Definition isDigit (c : char) : bool := inRange 48 57 c.

(** The word characters of [\b]: [A-Za-z0-9_]. *)
Definition isWordChar (c : char) : bool :=
  isUpper c || isLower c || isDigit c || (c =? 95).

Definition toUpper (c : char) : char := if isLower c then c - 32 else c.
Definition toLower (c : char) : char := if isUpper c then c + 32 else c.

(** Canonicalize of a pattern without the [u] flag. The patterns of the
    program have ASCII literals and classes only, and canonicalisation never
    maps a code unit from 128 up to one below 128, so the only code units
    whose case folding a pattern can observe are the ASCII letters. *)
Definition canonicalize (ignoreCase : bool) (c : char) : char :=
  if ignoreCase then toUpper c else c.

Inductive charset : Type :=
| CsRange (lo hi : char)
| CsChar (c : char)
| CsUnion (a b : charset)
| CsSpace                       (* \s *)
| CsDot.                        (* .  *)

Fixpoint cs_mem (cs : charset) (c : char) : bool :=
  match cs with
  | CsRange lo hi => inRange lo hi c
  | CsChar x => c =? x
  | CsUnion a b => cs_mem a c || cs_mem b c
  | CsSpace => isWhiteSpace c
  | CsDot => negb (isLineTerminator c)
  end.

(** CharacterSetMatcher: with [i], [c] is accepted when some member of the
    set has the same canonical form. *)
Definition cs_match (ignoreCase : bool) (cs : charset) (c : char) : bool :=
  cs_mem cs c ||
  (ignoreCase && (cs_mem cs (toUpper c) || cs_mem cs (toLower c))).

(** *** String methods *)

(** [s.split(sep)] for a one-character separator: never empty, the pieces
    are the maximal runs between separators. *)
Fixpoint split (sep : char) (s : jsstring) : list jsstring :=
  match s with
  | [] => [[]]
  | c :: s' =>
      if c =? sep then [] :: split sep s'
      else match split sep s' with
           | piece :: rest => (c :: piece) :: rest
           | [] => [[c]]
           end
  end.

Fixpoint trimStart (s : jsstring) : jsstring :=
  match s with
  | c :: s' => if isWhiteSpace c then trimStart s' else s
  | [] => []
  end.

Definition trimEnd (s : jsstring) : jsstring := rev (trimStart (rev s)).

Definition trim (s : jsstring) : jsstring := trimEnd (trimStart s).

Definition jsstring_eqb (a b : jsstring) : bool := bool_decide (a = b).

(** A text given by its lines: the lines joined with newline characters. *)
Fixpoint joinLines (ls : list jsstring) : jsstring :=
  match ls with
  | [] => []
  | [l] => l
  | l :: ls' => l ++ 10 :: joinLines ls'
  end.

Definition text (ls : list string) : jsstring := joinLines (map str ls).

(** *** Regular expressions

    The fragment of pattern syntax that occurs in the program, with the
    backtracking semantics of the language specification: a matcher takes
    the current state and a continuation, alternatives are tried left to
    right, quantifiers are greedy. *)

Inductive regex : Type :=
| REmpty                                 (* the empty pattern *)
| RChar (c : char)                       (* a literal character *)
| RSet (cs : charset)                    (* a class, \s or . *)
| RSeq (r1 r2 : regex)
| RAlt (r1 r2 : regex)
| RRep (min : nat) (cs : charset)        (* cs{min,}, so * is 0 and + is 1 *)
| ROpt (r : regex)                       (* (?:r)? *)
| RGroup (i : nat) (r : regex)           (* the i-th capturing group *)
| RWordB                                 (* \b *)
| RNotBehind (r : regex).                (* (?<!r) *)

(** A literal word, a sequence of terms, and [r|r1|...|rn]. *)
Fixpoint lit (s : jsstring) : regex :=
  match s with
  | [] => REmpty
  | c :: s' => RSeq (RChar c) (lit s')
  end.

Fixpoint terms (rs : list regex) : regex :=
  match rs with
  | [] => REmpty
  | r :: rs' => RSeq r (terms rs')
  end.

Fixpoint alts (r : regex) (rs : list regex) : regex :=
  match rs with
  | [] => r
  | r' :: rs' => RAlt r (alts r' rs')
  end.

Inductive direction : Type := Forward | Backward.

(** The match state: the input split at the current position ([before] is
    kept reversed, so that its head is the character just behind), and the
    captures made so far. *)
Record MatchState : Type := mkState {
  before : jsstring;
  after : jsstring;
  captures : gmap nat jsstring
}.

Definition endIndex (x : MatchState) : nat := length (before x).

Definition continuation : Type := MatchState -> option MatchState.

(** One character in the given direction. *)
Definition advance (d : direction) (x : MatchState)
  : option (char * MatchState) :=
  match d with
  | Forward =>
      match after x with
      | c :: a => Some (c, mkState (c :: before x) a (captures x))
      | [] => None
      end
  | Backward =>
      match before x with
      | c :: b => Some (c, mkState b (c :: after x) (captures x))
      | [] => None
      end
  end.

Definition isWordBoundary (x : MatchState) : bool :=
  let a := match before x with c :: _ => isWordChar c | [] => false end in
  let b := match after x with c :: _ => isWordChar c | [] => false end in
  xorb a b.

(** Greedy [cs{min,}] reading forward: structural in the remaining input. *)
Fixpoint repForward (ic : bool) (cs : charset) (min : nat)
    (caps : gmap nat jsstring) (k : continuation)
    (bef aft : jsstring) {struct aft} : option MatchState :=
  match aft with
  | c :: aft' =>
      if cs_match ic cs c then
        match min with
        | S min' => repForward ic cs min' caps k (c :: bef) aft'
        | O =>
            match repForward ic cs O caps k (c :: bef) aft' with
            | Some y => Some y
            | None => k (mkState bef aft caps)
            end
        end
      else match min with
           | S _ => None
           | O => k (mkState bef aft caps)
           end
  | [] => match min with
          | S _ => None
          | O => k (mkState bef aft caps)
          end
  end.

(** The same reading backward (inside a lookbehind). *)
Fixpoint repBackward (ic : bool) (cs : charset) (min : nat)
    (caps : gmap nat jsstring) (k : continuation)
    (bef aft : jsstring) {struct bef} : option MatchState :=
  match bef with
  | c :: bef' =>
      if cs_match ic cs c then
        match min with
        | S min' => repBackward ic cs min' caps k bef' (c :: aft)
        | O =>
            match repBackward ic cs O caps k bef' (c :: aft) with
            | Some y => Some y
            | None => k (mkState bef aft caps)
            end
        end
      else match min with
           | S _ => None
           | O => k (mkState bef aft caps)
           end
  | [] => match min with
          | S _ => None
          | O => k (mkState bef aft caps)
          end
  end.

Fixpoint groupsOf (r : regex) : list nat :=
  match r with
  | RSeq a b | RAlt a b => groupsOf a ++ groupsOf b
  | ROpt a | RNotBehind a => groupsOf a
  | RGroup i a => i :: groupsOf a
  | _ => []
  end.

Definition clearCaptures (gs : list nat) (x : MatchState) : MatchState :=
  mkState (before x) (after x) (foldr (fun i m => delete i m) (captures x) gs).

(** The characters between two states of one match. *)
Definition consumed (d : direction) (x y : MatchState) : jsstring :=
  match d with
  | Forward => rev (take (endIndex y - endIndex x) (before y))
  | Backward => take (endIndex x - endIndex y) (after y)
  end.

Definition setCapture (i : nat) (s : jsstring) (x : MatchState) : MatchState :=
  mkState (before x) (after x) (<[i := s]> (captures x)).

Fixpoint matcher (ic : bool) (d : direction) (r : regex)
    (x : MatchState) (k : continuation) {struct r} : option MatchState :=
  match r with
  | REmpty => k x
  | RChar c =>
      match advance d x with
      | Some (ch, y) =>
          if canonicalize ic ch =? canonicalize ic c then k y else None
      | None => None
      end
  | RSet cs =>
      match advance d x with
      | Some (ch, y) => if cs_match ic cs ch then k y else None
      | None => None
      end
  | RSeq r1 r2 =>
      match d with
      | Forward => matcher ic d r1 x (fun y => matcher ic d r2 y k)
      | Backward => matcher ic d r2 x (fun y => matcher ic d r1 y k)
      end
  | RAlt r1 r2 =>
      match matcher ic d r1 x k with
      | Some z => Some z
      | None => matcher ic d r2 x k
      end
  | RRep min cs =>
      match d with
      | Forward => repForward ic cs min (captures x) k (before x) (after x)
      | Backward => repBackward ic cs min (captures x) k (before x) (after x)
      end
  | ROpt r1 =>
      match matcher ic d r1 (clearCaptures (groupsOf r1) x)
              (fun y => if (endIndex y =? endIndex x)%nat then None else k y)
      with
      | Some z => Some z
      | None => k x
      end
  | RGroup i r1 =>
      matcher ic d r1 x (fun y => k (setCapture i (consumed d x y) y))
  | RWordB => if isWordBoundary x then k x else None
  | RNotBehind r1 =>
      match matcher ic Backward r1 x Some with
      | Some _ => None
      | None => k x
      end
  end.

(** The first position at or after the current one where the pattern
    matches, with the final state of that match. *)
Fixpoint search (ic : bool) (r : regex) (caps : gmap nat jsstring)
    (bef aft : jsstring) {struct aft} : option (nat * MatchState) :=
  match matcher ic Forward r (mkState bef aft caps) Some with
  | Some y => Some (length bef, y)
  | None =>
      match aft with
      | c :: aft' => search ic r caps (c :: bef) aft'
      | [] => None
      end
  end.

(** A RegExp object: the pattern, its flags and the mutable [lastIndex]. *)
Record RegExp : Type := mkRegExp {
  pattern : regex;
  global : bool;
  ignoreCase : bool;
  lastIndex : nat
}.

Definition setLastIndex (i : nat) (R : RegExp) : RegExp :=
  mkRegExp (pattern R) (global R) (ignoreCase R) i.

(** A match array: [index], element 0 and the captures (an absent key is
    an [undefined] element). *)
Record MatchArray : Type := mkMatch {
  index : nat;
  matched : jsstring;
  groups : gmap nat jsstring
}.

(** [m[i]] used as a string: a group that did not take part in the match
    is [undefined], on which a string method raises. *)
Definition capture (m : MatchArray) (i : nat) : result jsstring :=
  match groups m !! i with
  | Some s => Ok s
  | None => TypeError
  end.

(** [R.exec(S)]: returns the match array or [null], and the RegExp object
    with its [lastIndex] updated when the pattern is global. *)
Definition exec (R : RegExp) (s : jsstring) : option MatchArray * RegExp :=
  let start := if global R then lastIndex R else O in
  if (length s <? start)%nat then
    (None, if global R then setLastIndex 0 R else R)
  else
    match search (ignoreCase R) (pattern R) ∅ (rev (take start s)) (drop start s) with
    | None => (None, if global R then setLastIndex 0 R else R)
    | Some (i, y) =>
        let e := endIndex y in
        (Some (mkMatch i (take (e - i) (drop i s)) (captures y)),
         if global R then setLastIndex e R else R)
    end.

(** The loop of [S.match(R)] for a global pattern: collect element 0 of
    every match, stepping over an empty match. *)
Fixpoint matchLoop (fuel : nat) (R : RegExp) (s : jsstring)
    (acc : list jsstring) : result (list jsstring) :=
  match fuel with
  | O => OutOfFuel
  | S fuel' =>
      match exec R s with
      | (None, _) => Ok acc
      | (Some m, R') =>
          let R'' := match matched m with
                     | [] => setLastIndex (S (lastIndex R')) R'
                     | _ => R'
                     end in
          matchLoop fuel' R'' s (acc ++ [matched m])
      end
  end.

(** [S.match(R)] with the [g] flag: the array of matched substrings, or
    [null] when there is none. *)
Definition matchGlobal (s : jsstring) (R : RegExp)
  : result (option (list jsstring)) :=
  bind (matchLoop (length s + 2) (setLastIndex 0 R) s [])
       (fun ms => Ok (match ms with [] => None | _ => Some ms end)).

(** [S.match(R)] without the [g] flag: the first match with its captures. *)
Definition matchFirst (s : jsstring) (R : RegExp) : option MatchArray :=
  fst (exec R s).

End Js.

(** ** The server *)

Module Server.
Import Js.

(** *** Data *)

Record Position : Type := mkPosition { line : nat; character : nat }.

Record Range : Type := mkRange { range_start : Position; range_end : Position }.

(** A text document of the document store. [positionAt] is the store's map
    from offsets to line and column. *)
Record TextDocument : Type := mkDocument {
  uri : jsstring;
  getText : jsstring;
  positionAt : nat -> Position
}.

Inductive DiagnosticSeverity : Type := Error | Warning | Information | HintSeverity.

Record Location : Type := mkLocation { loc_uri : jsstring; loc_range : Range }.

Record DiagnosticRelatedInformation : Type := mkRelated {
  location : Location;
  related_message : jsstring
}.

Record Diagnostic : Type := mkDiagnostic {
  severity : DiagnosticSeverity;
  range : Range;
  message : jsstring;
  source : jsstring;
  relatedInformation : option (list DiagnosticRelatedInformation)
}.

Inductive CompletionItemKind : Type := KeywordKind | VariableKind | FunctionKind.

Record CompletionItem : Type := mkItem {
  label : jsstring;
  kind : CompletionItemKind;
  detail : option jsstring
}.

Inductive DocumentDiagnosticReportKind : Type := Full | Unchanged.

Record DocumentDiagnosticReport : Type := mkReport {
  report_kind : DocumentDiagnosticReportKind;
  items : list Diagnostic
}.

(** The entries of [extractFunctionDeclarations]: [{ name, params }]. *)
Record FunctionDeclaration : Type := mkFunction {
  name : jsstring;
  params : list jsstring
}.

(** The entries of [extractVariableDeclarations]: [{ name, containerName }]. *)
Record VariableDeclaration : Type := mkVariable {
  var_name : jsstring;
  containerName : jsstring
}.

Record ExampleSettings : Type := mkSettings { maxNumberOfProblems : Z }.

(** The client capabilities [onInitialize] looks at; an absent member is
    [None]. *)
Record WorkspaceCapabilities : Type := mkWorkspaceCaps {
  configuration : option bool;
  workspaceFolders : option bool
}.

Record PublishDiagnosticsCapabilities : Type := mkPublishCaps {
  cap_relatedInformation : option bool
}.

Record TextDocumentCapabilities : Type := mkTextDocumentCaps {
  publishDiagnostics : option PublishDiagnosticsCapabilities
}.

Record ClientCapabilities : Type := mkCapabilities {
  workspace : option WorkspaceCapabilities;
  textDocument : option TextDocumentCapabilities
}.

(** The module-level variables of the server, and the document store. *)
Record ServerState : Type := mkServer {
  hasConfigurationCapability : bool;
  hasWorkspaceFolderCapability : bool;
  hasDiagnosticRelatedInformationCapability : bool;
  globalSettings : ExampleSettings;
  documentSettings : gmap jsstring ExampleSettings;
  documents : gmap jsstring TextDocument
}.

Definition defaultSettings : ExampleSettings := mkSettings 1000.

(** The state when the module has been loaded. *)
Definition initialServer : ServerState :=
  mkServer false false false defaultSettings ∅ ∅.

(** *** Initialisation *)

(** Truthiness of an optional boolean member. *)
Definition truthy (b : option bool) : bool := default false b.

Definition onInitialize (capabilities : ClientCapabilities)
    (sv : ServerState) : ServerState :=
  mkServer
    (match workspace capabilities with
     | Some w => truthy (configuration w)
     | None => false
     end)
    (match workspace capabilities with
     | Some w => truthy (workspaceFolders w)
     | None => false
     end)
    (match textDocument capabilities with
     | Some td =>
         match publishDiagnostics td with
         | Some pd => truthy (cap_relatedInformation pd)
         | None => false
         end
     | None => false
     end)
    (globalSettings sv) (documentSettings sv) (documents sv).

(** The client declared support for related diagnostic information. *)
Definition declaresRelatedInformation (capabilities : ClientCapabilities)
  : Prop :=
  exists td pd,
    textDocument capabilities = Some td /\
    publishDiagnostics td = Some pd /\
    cap_relatedInformation pd = Some true.

(** *** Settings *)

(** [getDocumentSettings]. [getConfiguration] is the client's answer to a
    [workspace/configuration] request for a scope URI; the cache holds the
    value each stored promise resolves to. *)
Definition getDocumentSettings (getConfiguration : jsstring -> ExampleSettings)
    (sv : ServerState) (resource : jsstring) : ExampleSettings * ServerState :=
  if negb (hasConfigurationCapability sv) then (globalSettings sv, sv)
  else
    match documentSettings sv !! resource with
    | Some result => (result, sv)
    | None =>
        let result := getConfiguration resource in
        (result,
         mkServer (hasConfigurationCapability sv)
           (hasWorkspaceFolderCapability sv)
           (hasDiagnosticRelatedInformationCapability sv)
           (globalSettings sv)
           (<[resource := result]> (documentSettings sv))
           (documents sv))
    end.

(** *** The patterns *)

Definition identStart : charset :=
  CsUnion (CsRange 97 122) (CsUnion (CsRange 65 90) (CsChar 95)).

Definition identPart : charset :=
  CsUnion (CsRange 97 122)
    (CsUnion (CsRange 65 90) (CsUnion (CsRange 48 57) (CsChar 95))).

(** An identifier: one of [a-zA-Z_], then any number of [a-zA-Z0-9_]. *)
Definition identifier : regex := RSeq (RSet identStart) (RRep 0 identPart).

(** The validator's pattern, flag [g]: a word boundary, two or more of
    [A-Z], a word boundary. *)
Definition allCapsPattern : RegExp :=
  mkRegExp (terms [RWordB; RRep 2 (CsRange 65 90); RWordB]) true false 0.

(** The pattern of the function body lines, flag [g]: a word boundary,
    group 1 an identifier, white space, a colon, white space, group 2 one of
    STRING, INT, FLOAT, CHAR, BOOL. *)
Definition typedParamPattern : RegExp :=
  mkRegExp
    (terms [RWordB; RGroup 1 identifier; RRep 0 CsSpace; RChar 58;
            RRep 0 CsSpace;
            RGroup 2 (alts (lit (str "STRING"))
                        [lit (str "INT"); lit (str "FLOAT");
                         lit (str "CHAR"); lit (str "BOOL")])])
    true false 0.

(** The pattern of a function header, flag [i]: a word boundary, FN, one
    or more white space, optionally one of STRING, INT, FLOAT, CHAR, BOOL
    (not captured), any white space, group 1 an identifier, any white space,
    an opening parenthesis, group 2 any characters of the line, a closing
    parenthesis. *)
Definition functionStartPattern : RegExp :=
  mkRegExp
    (terms [RWordB; lit (str "FN"); RRep 1 CsSpace;
            ROpt (alts (lit (str "STRING"))
                    [lit (str "INT"); lit (str "FLOAT");
                     lit (str "CHAR"); lit (str "BOOL")]);
            RRep 0 CsSpace; RGroup 1 identifier; RRep 0 CsSpace;
            RChar 40; RGroup 2 (RRep 0 CsDot); RChar 41])
    false true 0.

(** The pattern of a variable declaration, flag [g]: not preceded by
    [notAfterFN] (a word boundary, FN and one or more white space); group 1
    one of STRING, INT, FLOAT, CHAR; one or more white space; group 2 an
    identifier; a word boundary. *)
Definition notAfterFN : regex :=
  terms [RWordB; lit (str "FN"); RRep 1 CsSpace].

Definition paramRegex : RegExp :=
  mkRegExp
    (terms [RNotBehind notAfterFN;
            RGroup 1 (alts (lit (str "STRING"))
                        [lit (str "INT"); lit (str "FLOAT");
                         lit (str "CHAR")]);
            RRep 1 CsSpace; RGroup 2 identifier; RWordB])
    true false 0.

(** *** extractFunctionDeclarations *)

(** The variables the [forEach] callback closes over. *)
Record FunctionScan : Type := mkScan {
  functionDeclarations : list FunctionDeclaration;
  functionName : jsstring;
  functionParams : list jsstring;
  isInFunction : bool
}.

(** The inner [matches.forEach]: a match that splits at [:] in two parts
    adds the entry [TYPE name]. *)
Definition pushTypedParam (functionParams : list jsstring) (mt : jsstring)
  : list jsstring :=
  match split 58 mt with
  | [p0; p1] => functionParams ++ [trim p1 ++ 32 :: trim p0]
  | _ => functionParams
  end.

(** The body of the [lines.forEach] callback. Both groups of the header
    pattern take part in every match of it, so [capture] never raises here
    (lemma [functionStart_groups]). *)
Definition scanLine (sc : FunctionScan) (line : jsstring)
  : result FunctionScan :=
  if isInFunction sc then
    if jsstring_eqb (trim line) (str "END FN") then
      Ok (mkScan
            (functionDeclarations sc ++
               [mkFunction (functionName sc) (functionParams sc)])
            [] [] false)
    else
      bind (matchGlobal line typedParamPattern) (fun matches =>
        match matches with
        | Some ms =>
            Ok (mkScan (functionDeclarations sc) (functionName sc)
                  (foldl pushTypedParam (functionParams sc) ms) true)
        | None => Ok sc
        end)
  else
    match matchFirst line functionStartPattern with
    | Some functionStartMatch =>
        bind (capture functionStartMatch 1) (fun fname =>
        bind (capture functionStartMatch 2) (fun paramsString =>
          Ok (mkScan (functionDeclarations sc) fname
                (map trim (split 44 paramsString)) true)))
    | None => Ok sc
    end.

Definition scanStart : FunctionScan := mkScan [] [] [] false.

Definition extractFunctionDeclarations (document : TextDocument)
  : result (list FunctionDeclaration) :=
  bind (forEach scanLine (split 10 (getText document)) scanStart)
       (fun sc => Ok (functionDeclarations sc)).

(** *** extractVariableDeclarations *)

(** The [while ((matches = paramRegex.exec(line)) !== null)] loop. The
    RegExp object is shared by all lines, so it is threaded through. Both
    groups take part in every match (lemma [paramRegex_exec]). *)
Fixpoint variableLoop (fuel : nat) (line : jsstring)
    (st : list VariableDeclaration * RegExp)
  : result (list VariableDeclaration * RegExp) :=
  match fuel with
  | O => OutOfFuel
  | S fuel' =>
      match exec (snd st) line with
      | (None, R') => Ok (fst st, R')
      | (Some matches, R') =>
          bind (capture matches 1) (fun type =>
          bind (capture matches 2) (fun vname =>
            variableLoop fuel' line
              (fst st ++ [mkVariable vname type], R')))
      end
  end.

Definition variableLine (st : list VariableDeclaration * RegExp)
    (line : jsstring) : result (list VariableDeclaration * RegExp) :=
  variableLoop (S (length line)) line st.

Definition extractVariableDeclarations (document : TextDocument)
  : result (list VariableDeclaration) :=
  bind (forEach variableLine (split 10 (getText document)) ([], paramRegex))
       (fun st => Ok (fst st)).

(** *** validateTextDocument *)

(** The [diagnostic] object the loop body builds for a match. *)
Definition makeDiagnostic (sv : ServerState) (textDocument : TextDocument)
    (m : MatchArray) : Diagnostic :=
  let rg := mkRange (positionAt textDocument (index m))
              (positionAt textDocument (index m + length (matched m))) in
  mkDiagnostic Warning rg (matched m ++ str " is all uppercase.") (str "ex")
    (if hasDiagnosticRelatedInformationCapability sv then
       Some [mkRelated (mkLocation (uri textDocument) rg)
               (str "Spelling matters");
             mkRelated (mkLocation (uri textDocument) rg)
               (str "Particularly for names")]
     else None).

(** The variables of the validation loop. [diagnostics] is the array the
    function returns; [built] records, in order, the [diagnostic] object of
    each pass through the loop body. *)
Record ValidateRun : Type := mkRun {
  problems : Z;
  diagnostics : list Diagnostic;
  built : list Diagnostic
}.

(** [while ((m = pattern.exec(text)) && problems < settings.maxNumberOfProblems)].
    The body counts the problem and builds [diagnostic]; it has no statement
    that adds it to [diagnostics]. *)
Fixpoint validateLoop (fuel : nat) (sv : ServerState)
    (settings : ExampleSettings) (textDocument : TextDocument)
    (R : RegExp) (run : ValidateRun) : result ValidateRun :=
  match fuel with
  | O => OutOfFuel
  | S fuel' =>
      match exec R (getText textDocument) with
      | (None, _) => Ok run
      | (Some m, R') =>
          if (problems run <? maxNumberOfProblems settings)%Z then
            validateLoop fuel' sv settings textDocument R'
              (mkRun (problems run + 1) (diagnostics run)
                 (built run ++ [makeDiagnostic sv textDocument m]))
          else Ok run
      end
  end.

(** The function once the settings have resolved. *)
Definition validateWith (sv : ServerState) (settings : ExampleSettings)
    (textDocument : TextDocument) : result ValidateRun :=
  validateLoop (S (length (getText textDocument))) sv settings textDocument
    allCapsPattern (mkRun 0 [] []).

Definition validateTextDocument
    (getConfiguration : jsstring -> ExampleSettings)
    (sv : ServerState) (textDocument : TextDocument)
  : result (list Diagnostic) * ServerState :=
  let (settings, sv') :=
    getDocumentSettings getConfiguration sv (uri textDocument) in
  (bind (validateWith sv' settings textDocument)
        (fun run => Ok (diagnostics run)),
   sv').

(** *** The handlers *)

(** [connection.languages.diagnostics.on]. *)
Definition onDiagnostics (getConfiguration : jsstring -> ExampleSettings)
    (sv : ServerState) (target : jsstring)
  : result DocumentDiagnosticReport * ServerState :=
  match documents sv !! target with
  | Some document =>
      let (r, sv') := validateTextDocument getConfiguration sv document in
      (bind r (fun its => Ok (mkReport Full its)), sv')
  | None => (Ok (mkReport Full []), sv)
  end.

Definition keyword (s : string) : CompletionItem :=
  mkItem (str s) KeywordKind None.

(** The items the completion handler starts from. The two boolean literals
    carry their quotation marks in the label (code units 34). *)
Definition fixedItems : list CompletionItem :=
  [keyword "BEGIN"; keyword "END"; keyword "IF"; keyword "ELSE";
   keyword "WHILE"; keyword "FN"; keyword "STRING"; keyword "CHAR";
   keyword "INT"; keyword "FLOAT"; keyword "BOOL";
   mkItem (34 :: str "TRUE" ++ [34]) KeywordKind None;
   mkItem (34 :: str "FALSE" ++ [34]) KeywordKind None;
   keyword "RETURN";
   mkItem (str "scanString") FunctionKind None].

Definition variableItem (variable : VariableDeclaration) : CompletionItem :=
  mkItem (var_name variable) VariableKind (Some (containerName variable)).

Definition functionItem (variable : FunctionDeclaration) : CompletionItem :=
  mkItem (name variable) FunctionKind None.

(** The body of the completion handler once the document is found. *)
Definition computeCompletions (document : TextDocument)
  : result (list CompletionItem) :=
  bind (extractVariableDeclarations document) (fun variableDeclarations =>
  bind (extractFunctionDeclarations document) (fun functionDeclarations =>
    Ok (fixedItems ++ map variableItem variableDeclarations
                   ++ map functionItem functionDeclarations))).

(** [connection.onCompletion]: the request names a document and a cursor
    position. *)
Definition onCompletion (sv : ServerState) (target : jsstring)
    (position : Position) : result (list CompletionItem) :=
  match documents sv !! target with
  | None => Ok []
  | Some document => computeCompletions document
  end.

(** *** Configuration changes, closing and content changes *)

(** The [settings] member of a configuration change, when it is an object:
    its [languageServerExample] member, [None] when that is absent or
    falsy. *)
Record ConfigurationSettings : Type := mkChange {
  languageServerExample : option ExampleSettings
}.

(** [connection.onDidChangeConfiguration]. [settings] is [None] when the
    notification carries [null]; reading a member of it then raises. The
    request to refresh the diagnostics goes to the client and leaves the
    state. *)
Definition onDidChangeConfiguration (settings : option ConfigurationSettings)
    (sv : ServerState) : result ServerState :=
  if hasConfigurationCapability sv then
    Ok (mkServer (hasConfigurationCapability sv)
          (hasWorkspaceFolderCapability sv)
          (hasDiagnosticRelatedInformationCapability sv)
          (globalSettings sv) ∅ (documents sv))
  else
    match settings with
    | None => TypeError
    | Some st =>
        Ok (mkServer (hasConfigurationCapability sv)
              (hasWorkspaceFolderCapability sv)
              (hasDiagnosticRelatedInformationCapability sv)
              (default defaultSettings (languageServerExample st))
              (documentSettings sv) (documents sv))
    end.

(** [documents.onDidClose]. *)
Definition onDidClose (document : TextDocument) (sv : ServerState)
  : ServerState :=
  mkServer (hasConfigurationCapability sv)
    (hasWorkspaceFolderCapability sv)
    (hasDiagnosticRelatedInformationCapability sv)
    (globalSettings sv)
    (delete (uri document) (documentSettings sv))
    (documents sv).

(** [documents.onDidChangeContent]: the validation is run and its result
    dropped. *)
Definition onDidChangeContent (getConfiguration : jsstring -> ExampleSettings)
    (document : TextDocument) (sv : ServerState) : ServerState :=
  snd (validateTextDocument getConfiguration sv document).

(** *** Resolving a completion item *)

(** The [data] member of an item: absent, a number, or anything else. *)
Inductive ItemData : Type :=
| NoData
| NumberData (n : Z)
| OtherData.

(** A completion item as the resolve request carries it. *)
Record ResolveItem : Type := mkResolve {
  resolve_label : jsstring;
  resolve_kind : CompletionItemKind;
  resolve_detail : option jsstring;
  resolve_data : ItemData;
  resolve_documentation : option jsstring
}.

(** [connection.onCompletionResolve]. *)
Definition onCompletionResolve (item : ResolveItem) : ResolveItem :=
  match resolve_data item with
  | NumberData 1 =>
      mkResolve (resolve_label item) (resolve_kind item)
        (Some (str "TypeScript details")) (resolve_data item)
        (Some (str "TypeScript documentation"))
  | NumberData 2 =>
      mkResolve (resolve_label item) (resolve_kind item)
        (Some (str "JavaScript details")) (resolve_data item)
        (Some (str "JavaScript documentation"))
  | _ => item
  end.

(** An item of the completion handler as it comes back in a resolve
    request: the handler sets neither [data] nor [documentation]. *)
Definition toResolve (item : CompletionItem) : ResolveItem :=
  mkResolve (label item) (kind item) (detail item) NoData None.

End Server.

(** ** Reading a successful match

    What a successful forward run of the matcher went through: the states
    between which each part of the pattern matched. It forgets the order in
    which alternatives were tried. *)

Module Trace.
Import Js.

Fixpoint fwd (ic : bool) (r : regex) (x y : MatchState) : Prop :=
  match r with
  | REmpty => y = x
  | RChar c =>
      exists ch a, after x = ch :: a /\
        canonicalize ic ch = canonicalize ic c /\
        y = mkState (ch :: before x) a (captures x)
  | RSet cs =>
      exists ch a, after x = ch :: a /\ cs_match ic cs ch = true /\
        y = mkState (ch :: before x) a (captures x)
  | RSeq r1 r2 => exists z, fwd ic r1 x z /\ fwd ic r2 z y
  | RAlt r1 r2 => fwd ic r1 x y \/ fwd ic r2 x y
  | RRep min cs =>
      exists w, (min <= length w)%nat /\
        Forall (fun c => cs_match ic cs c = true) w /\
        after x = w ++ after y /\ before y = rev w ++ before x /\
        captures y = captures x
  | ROpt r1 => y = x \/ fwd ic r1 (clearCaptures (groupsOf r1) x) y
  | RGroup i r1 =>
      exists z, fwd ic r1 x z /\ y = setCapture i (consumed Forward x z) z
  | RWordB => y = x /\ isWordBoundary x = true
  | RNotBehind r1 => y = x /\ matcher ic Backward r1 x Some = None
  end.

(** The characters a match went over. *)
Definition reads (w : jsstring) (x y : MatchState) : Prop :=
  after x = w ++ after y /\ before y = rev w ++ before x.

End Trace.

(** ** Vocabulary of the statements *)

Module Vocabulary.
Import Js Server.

(** The type keywords of a variable declaration. *)
Definition variableTypes : list jsstring :=
  [str "STRING"; str "INT"; str "FLOAT"; str "CHAR"].

(** The entries one body line of a function adds to its parameters. *)
Definition typedParams (line : jsstring) : list jsstring :=
  match matchGlobal line typedParamPattern with
  | Ok (Some ms) => foldl pushTypedParam [] ms
  | _ => []
  end.

(** The successive results of [exec] on a text, up to the first [null]. *)
Fixpoint matchesFrom (fuel : nat) (R : RegExp) (s : jsstring)
  : list MatchArray :=
  match fuel with
  | O => []
  | S fuel' =>
      match exec R s with
      | (None, _) => []
      | (Some m, R') => m :: matchesFrom fuel' R' s
      end
  end.

(** The ALL-CAPS tokens of a text, as the validator's pattern finds them. *)
Definition allCapsMatches (s : jsstring) : list MatchArray :=
  matchesFrom (S (length s)) allCapsPattern s.

(** The text ends in a word character. *)
Definition endsInWord (p : jsstring) : bool :=
  match rev p with
  | c :: _ => isWordChar c
  | [] => false
  end.

(** The line starts a function, and what groups 1 and 2 of the header
    pattern captured in it. *)
Definition isHeader (line : jsstring) : bool :=
  match matchFirst line functionStartPattern with
  | Some _ => true
  | None => false
  end.

Definition headerGroup (i : nat) (line : jsstring) : option jsstring :=
  match matchFirst line functionStartPattern with
  | Some m => groups m !! i
  | None => None
  end.

(** The line closes a function. *)
Definition isEndFn (line : jsstring) : bool :=
  jsstring_eqb (trim line) (str "END FN").

(** Line and column of an offset in a text whose lines end in newline
    characters. *)
Fixpoint positionFrom (s : jsstring) (offset ln col : nat) : Position :=
  match offset, s with
  | S o, c :: s' =>
      if c =? 10 then positionFrom s' o (S ln) O
      else positionFrom s' o ln (S col)
  | _, _ => mkPosition ln col
  end.

(** A document of the store with the given lines. *)
Definition documentOf (ls : list string) : TextDocument :=
  mkDocument (str "file:///doc.cl") (text ls)
    (fun offset => positionFrom (text ls) offset O O).

(** The type keywords of a typed parameter in a function body. *)
Definition paramTypes : list jsstring :=
  [str "STRING"; str "INT"; str "FLOAT"; str "CHAR"; str "BOOL"].

(** An identifier: a letter or underscore, then letters, digits and
    underscores. *)
Definition isIdentifier (s : jsstring) : bool :=
  match s with
  | c :: s' => cs_mem identStart c && forallb (cs_mem identPart) s'
  | [] => false
  end.

(** The text starts, or ends, with a word character. *)
Definition startsWithWord (s : jsstring) : bool :=
  match s with
  | c :: _ => isWordChar c
  | [] => false
  end.

(** The text ends with the keyword FN and a space: its last three
    characters are F, N and a space, and no word character stands before
    the F. *)
Definition behindFnKeyword (pre : jsstring) : bool :=
  let n := (length pre - 3)%nat in
  bool_decide (drop n pre = str "FN ") && negb (endsInWord (take n pre)).

(** The declaration a match of the variable pattern stands for. *)
Definition groupOf (m : MatchArray) (i : nat) : jsstring :=
  match groups m !! i with
  | Some s => s
  | None => []
  end.

Definition variableOf (m : MatchArray) : VariableDeclaration :=
  mkVariable (groupOf m 2) (groupOf m 1).

(** The declarations of one line taken by itself. *)
Definition lineVariables (line : jsstring) : list VariableDeclaration :=
  map variableOf (matchesFrom (S (length line)) paramRegex line).

(** The text has two capital letters in a row. *)
Fixpoint hasCapsPair (s : jsstring) : bool :=
  match s with
  | c :: s' =>
      match s' with
      | c' :: _ => (isUpper c && isUpper c') || hasCapsPair s'
      | [] => false
      end
  | [] => false
  end.

(** The text starts with white space; it has white space at neither end. *)
Definition startsWithSpace (s : jsstring) : bool :=
  match s with
  | c :: _ => isWhiteSpace c
  | [] => false
  end.

Definition isTrimmed (s : jsstring) : bool :=
  negb (startsWithSpace s) && negb (startsWithSpace (rev s)).

(** A parameter list as the scanner keeps it: not empty, every entry
    without white space at its ends and without a comma. *)
Definition wellFormedParams (ps : list jsstring) : Prop :=
  ps <> [] /\ Forall (fun p => isTrimmed p = true /\ ~ In 44 p) ps.

(** A name the header pattern captured on one of the lines. *)
Definition headerNameOn (lines : list jsstring) (fname : jsstring) : Prop :=
  isIdentifier fname = true /\
  exists l, In l lines /\ headerGroup 1 l = Some fname.

(** What holds of the scanner's variables between two lines of a text. *)
Definition scanInvariant (lines : list jsstring) (sc : FunctionScan) : Prop :=
  Forall (fun f => headerNameOn lines (name f) /\ wellFormedParams (params f))
    (functionDeclarations sc) /\
  (if isInFunction sc
   then headerNameOn lines (functionName sc) /\
        wellFormedParams (functionParams sc)
   else functionName sc = [] /\ functionParams sc = []).

(** A function block: its header line, its body lines and its closing
    line; it is well formed when the header pattern matches the first, no
    body line closes the function and the last one does. *)
Record Block : Type := mkBlock {
  blockHeader : jsstring;
  blockBody : list jsstring;
  blockClosing : jsstring
}.

Definition blockLines (b : Block) : list jsstring :=
  blockHeader b :: blockBody b ++ [blockClosing b].

Definition wellFormedBlock (b : Block) : Prop :=
  isHeader (blockHeader b) = true /\
  Forall (fun l => isEndFn l = false) (blockBody b) /\
  isEndFn (blockClosing b) = true.

(** The declaration of a block: the captured name, the pieces of the
    header's parameter text, and what the body lines add. *)
Definition blockDeclaration (b : Block) : FunctionDeclaration :=
  mkFunction (default [] (headerGroup 1 (blockHeader b)))
    (map trim (split 44 (default [] (headerGroup 2 (blockHeader b))))
       ++ concat (map typedParams (blockBody b))).

(** The number of lines with a property. *)
Definition countLines (p : jsstring -> bool) (ls : list jsstring) : nat :=
  length (List.filter p ls).

(** At the end of the text the scanner is outside a function. *)
Definition endsOutside (t : jsstring) : bool :=
  match forEach scanLine (split 10 t) scanStart with
  | Ok sc => negb (isInFunction sc)
  | _ => false
  end.

End Vocabulary.

(** ** Facts about the runtime model *)

Section MatcherFacts.
Import Js Trace.

Lemma repForward_sound ic cs aft : forall min caps k bef res,
  repForward ic cs min caps k bef aft = Some res ->
  exists w aft', (min <= length w)%nat /\
    Forall (fun c => cs_match ic cs c = true) w /\
    aft = w ++ aft' /\
    k (mkState (rev w ++ bef) aft' caps) = Some res.
Proof.
  induction aft as [|c aft IH]; intros min caps k bef res H; simpl in H.
  - destruct min; [|discriminate].
    exists [], []. simpl. repeat split; auto.
  - destruct (cs_match ic cs c) eqn:Hc.
    + destruct min as [|min'].
      * destruct (repForward ic cs 0 caps k (c :: bef) aft) eqn:Hrec.
        -- inversion H; subst. apply IH in Hrec.
           destruct Hrec as (w & aft' & Hlen & Hall & Heq & Hk).
           exists (c :: w), aft'. simpl. rewrite <- app_assoc. simpl.
           repeat split; auto with lia. subst. reflexivity.
        -- exists [], (c :: aft). simpl. repeat split; auto.
      * apply IH in H. destruct H as (w & aft' & Hlen & Hall & Heq & Hk).
        exists (c :: w), aft'. simpl. rewrite <- app_assoc. simpl.
        repeat split; auto with lia. subst. reflexivity.
    + destruct min; [|discriminate].
      exists [], (c :: aft). simpl. repeat split; auto.
Qed.

Lemma matcher_sound ic r : forall x k res,
  matcher ic Forward r x k = Some res ->
  exists y, fwd ic r x y /\ k y = Some res.
Proof.
  induction r as [|c|cs|r1 IH1 r2 IH2|r1 IH1 r2 IH2|min cs|r1 IH1|i r1 IH1| |r1 IH1];
    intros x k res H; simpl in H.
  - exists x. split; [reflexivity|assumption].
  - unfold advance in H. destruct (after x) as [|ch a] eqn:Ha; [discriminate|].
    destruct (N.eqb_spec (canonicalize ic ch) (canonicalize ic c)); [|discriminate].
    eexists. split; [|eassumption]. simpl. eauto 6.
  - unfold advance in H. destruct (after x) as [|ch a] eqn:Ha; [discriminate|].
    destruct (cs_match ic cs ch) eqn:Hc; [|discriminate].
    eexists. split; [|eassumption]. simpl. eauto 6.
  - apply IH1 in H. destruct H as (z & Hz & H). apply IH2 in H.
    destruct H as (y & Hy & H). exists y. split; [|assumption].
    simpl. eauto.
  - destruct (matcher ic Forward r1 x k) eqn:H1.
    + inversion H; subst. apply IH1 in H1. destruct H1 as (y & Hy & Hk).
      exists y. simpl. auto.
    + apply IH2 in H. destruct H as (y & Hy & Hk). exists y. simpl. auto.
  - apply repForward_sound in H.
    destruct H as (w & aft' & Hlen & Hall & Heq & Hk).
    eexists. split; [|eassumption]. simpl. exists w. auto.
  - destruct (matcher ic Forward r1 _ _) eqn:H1.
    + inversion H; subst. apply IH1 in H1. destruct H1 as (y & Hy & Hk).
      destruct (endIndex y =? endIndex x)%nat; [discriminate|].
      exists y. simpl. auto.
    + exists x. simpl. auto.
  - apply IH1 in H. destruct H as (z & Hz & Hk).
    eexists. split; [|eassumption]. simpl. eauto.
  - destruct (isWordBoundary x) eqn:Hb; [|discriminate].
    exists x. simpl. auto.
  - destruct (matcher ic Backward r1 x Some) eqn:Hb; [discriminate|].
    exists x. simpl. auto.
Qed.

(** Every part of a match reads a stretch of the input, left to right. *)
Lemma fwd_reads ic r : forall x y,
  fwd ic r x y -> exists w, reads w x y.
Proof.
  unfold reads.
  induction r as [|c|cs|r1 IH1 r2 IH2|r1 IH1 r2 IH2|min cs|r1 IH1|i r1 IH1| |r1 IH1];
    intros x y H; simpl in H.
  - subst. exists []. auto.
  - destruct H as (ch & a & Ha & _ & ->). exists [ch]. simpl. auto.
  - destruct H as (ch & a & Ha & _ & ->). exists [ch]. simpl. auto.
  - destruct H as (z & H1 & H2).
    apply IH1 in H1. apply IH2 in H2.
    destruct H1 as (w1 & Ha1 & Hb1), H2 as (w2 & Ha2 & Hb2).
    exists (w1 ++ w2). rewrite Ha1, Ha2, Hb2, Hb1, rev_app_distr, !app_assoc.
    auto.
  - destruct H as [H|H]; eauto.
  - destruct H as (w & _ & _ & Ha & Hb & _). eauto.
  - destruct H as [->|H]; [exists []; auto|].
    apply IH1 in H. exact H.
  - destruct H as (z & H & ->). apply IH1 in H. exact H.
  - destruct H as [-> _]. exists []. auto.
  - destruct H as [-> _]. exists []. auto.
Qed.

Lemma search_sound ic r caps aft : forall bef i y,
  search ic r caps bef aft = Some (i, y) ->
  exists pre aft', aft = pre ++ aft' /\
    i = (length bef + length pre)%nat /\
    matcher ic Forward r (mkState (rev pre ++ bef) aft' caps) Some = Some y.
Proof.
  induction aft as [|c aft IH]; intros bef i y H; simpl in H.
  - destruct (matcher ic Forward r (mkState bef [] caps) Some) eqn:Hm;
      [|discriminate].
    inversion H; subst. exists [], []. simpl. auto with lia.
  - destruct (matcher ic Forward r (mkState bef (c :: aft) caps) Some) eqn:Hm.
    + inversion H; subst. exists [], (c :: aft). simpl. auto with lia.
    + apply IH in H. destruct H as (pre & aft' & -> & -> & H).
      exists (c :: pre), aft'. simpl. rewrite <- app_assoc. simpl.
      split; [reflexivity|]. split; [lia|assumption].
Qed.

(** What a successful [exec] tells: the pattern matched between two states
    of the input [s], the first at [index], and read element 0. *)
Lemma exec_some R s m R' :
  exec R s = (Some m, R') ->
  exists x y,
    fwd (ignoreCase R) (pattern R) x y /\ reads (matched m) x y /\
    rev (before x) ++ after x = s /\ captures x = ∅ /\
    index m = endIndex x /\ groups m = captures y /\
    ((if global R then lastIndex R else O) <= index m)%nat /\
    (index m + length (matched m) <= length s)%nat /\
    R' = (if global R
          then setLastIndex (index m + length (matched m)) R else R).
Proof.
  unfold exec. set (start := if global R then lastIndex R else O).
  destruct (length s <? start)%nat eqn:Hlt; [discriminate|].
  apply Nat.ltb_ge in Hlt.
  destruct (search _ _ _ _ _) as [[i y]|] eqn:Hs; [|discriminate].
  intros H. inversion H; subst m R'; clear H. simpl.
  apply search_sound in Hs. destruct Hs as (pre & aft' & Hd & Hi & Hm).
  apply matcher_sound in Hm. destruct Hm as (y' & Hf & Hy).
  inversion Hy; subst y'; clear Hy.
  destruct (fwd_reads _ _ _ _ Hf) as (w & Ha & Hb). simpl in Ha, Hb.
  assert (Hs : s = (take start s ++ pre) ++ w ++ after y).
  { rewrite <- (take_drop start s) at 1. rewrite Hd, Ha, <- app_assoc.
    reflexivity. }
  assert (Hlen : length (take start s ++ pre) = i).
  { rewrite Hi, length_app, length_rev. reflexivity. }
  assert (He : endIndex y = (i + length w)%nat).
  { unfold endIndex. rewrite Hb, !length_app, !length_rev.
    rewrite length_rev in Hi. lia. }
  assert (Hmt : take (endIndex y - i) (drop i s) = w).
  { rewrite He. replace (i + length w - i)%nat with (length w) by lia.
    rewrite Hs at 1. rewrite <- Hlen, drop_app_length.
    apply take_app_length. }
  rewrite Hmt.
  exists (mkState (rev pre ++ rev (take start s)) aft' ∅), y.
  split; [assumption|]. split; [split; assumption|]. simpl.
  split. { rewrite rev_app_distr, !rev_involutive, <- app_assoc, <- Hd.
           apply take_drop. }
  split; [reflexivity|].
  split. { unfold endIndex. simpl. rewrite length_app, !length_rev.
           rewrite length_rev in Hi. lia. }
  split; [reflexivity|].
  split. { rewrite length_rev, length_take in Hi. lia. }
  split. { apply (f_equal length) in Hs. rewrite !length_app in Hs.
           rewrite length_app in Hlen. lia. }
  rewrite He. reflexivity.
Qed.

Lemma exec_none R s R' :
  exec R s = (None, R') ->
  R' = (if global R then setLastIndex 0 R else R).
Proof.
  unfold exec. destruct (_ <? _)%nat.
  - intros H. inversion H. reflexivity.
  - destruct (search _ _ _ _ _) as [[i y]|]; intros H; inversion H.
    reflexivity.
Qed.

(** The loop of [match] with a global pattern always ends: [lastIndex]
    grows with every match, also with an empty one. *)
Lemma matchLoop_total fuel : forall R s acc,
  global R = true ->
  (length s + 2 - lastIndex R <= fuel)%nat -> (1 <= fuel)%nat ->
  exists ms, matchLoop fuel R s acc = Ok ms.
Proof.
  induction fuel as [|fuel IH]; intros R s acc Hg Hf H1; [lia|].
  simpl. destruct (exec R s) as [[m|] R'] eqn:He; [|eauto].
  apply exec_some in He.
  destruct He as (x & y & _ & _ & _ & _ & _ & _ & Hlo & Hhi & ->).
  rewrite Hg in *. simpl.
  apply IH.
  - destruct (matched m); simpl; assumption.
  - destruct (matched m); simpl in *; lia.
  - destruct (matched m); simpl in *; lia.
Qed.

Lemma matchGlobal_total s R :
  global R = true -> exists ms, matchGlobal s R = Ok ms.
Proof.
  intros Hg. unfold matchGlobal.
  destruct (matchLoop_total (length s + 2) (setLastIndex 0 R) s [])
    as [ms Hms]; [assumption|simpl; lia|lia|].
  rewrite Hms. simpl. eauto.
Qed.

Lemma reads_nil x : reads [] x x.
Proof. split; reflexivity. Qed.

Lemma reads_app w1 w2 x z y :
  reads w1 x z -> reads w2 z y -> reads (w1 ++ w2) x y.
Proof.
  intros [Ha1 Hb1] [Ha2 Hb2]. split.
  - rewrite Ha1, Ha2, app_assoc. reflexivity.
  - rewrite Hb2, Hb1, rev_app_distr, app_assoc. reflexivity.
Qed.

Lemma reads_inj w w' x y : reads w x y -> reads w' x y -> w = w'.
Proof.
  intros [Ha _] [Ha' _]. rewrite Ha in Ha'.
  apply app_inv_tail in Ha'. assumption.
Qed.

Lemma reads_length w x y :
  reads w x y -> endIndex y = (endIndex x + length w)%nat.
Proof.
  intros [_ Hb]. unfold endIndex. rewrite Hb, length_app, length_rev. lia.
Qed.

Lemma consumed_reads w x z : reads w x z -> consumed Forward x z = w.
Proof.
  intros H. unfold consumed. rewrite (reads_length _ _ _ H).
  destruct H as [_ Hb]. rewrite Hb.
  replace (endIndex x + length w - endIndex x)%nat with (length (rev w))
    by (rewrite length_rev; lia).
  rewrite take_app_length. apply rev_involutive.
Qed.

(** A part of a pattern without capturing groups leaves the captures. *)
Lemma fwd_no_groups ic r : forall x y,
  groupsOf r = [] -> fwd ic r x y -> captures y = captures x.
Proof.
  induction r as [|c|cs|r1 IH1 r2 IH2|r1 IH1 r2 IH2|min cs|r1 IH1|i r1 IH1| |r1 IH1];
    intros x y Hg H; simpl in H, Hg.
  - subst. reflexivity.
  - destruct H as (ch & a & _ & _ & ->). reflexivity.
  - destruct H as (ch & a & _ & _ & ->). reflexivity.
  - apply app_eq_nil in Hg. destruct Hg as [Hg1 Hg2].
    destruct H as (z & H1 & H2).
    rewrite (IH2 _ _ Hg2 H2). apply IH1; assumption.
  - apply app_eq_nil in Hg. destruct Hg as [Hg1 Hg2].
    destruct H as [H|H]; [apply IH1|apply IH2]; assumption.
  - destruct H as (w & _ & _ & _ & _ & H). exact H.
  - destruct H as [->|H]; [reflexivity|].
    rewrite (IH1 _ _ Hg H), Hg. reflexivity.
  - discriminate.
  - destruct H as [-> _]. reflexivity.
  - destruct H as [-> _]. reflexivity.
Qed.

(** A group around such a part captures what it read. *)
Lemma fwd_group ic i r x y :
  groupsOf r = [] -> fwd ic (RGroup i r) x y ->
  exists w z, fwd ic r x z /\ reads w x z /\ reads w x y /\
    captures y = <[i := w]> (captures x).
Proof.
  intros Hg (z & Hz & ->).
  destruct (fwd_reads _ _ _ _ Hz) as (w & Hw).
  exists w, z. split; [assumption|]. split; [exact Hw|].
  split; [exact Hw|].
  unfold setCapture. cbn [captures].
  rewrite (consumed_reads _ _ _ Hw), (fwd_no_groups _ _ _ _ Hg Hz).
  reflexivity.
Qed.

(** A case-sensitive literal reads itself. *)
Lemma fwd_lit s : forall x y, fwd false (lit s) x y -> reads s x y.
Proof.
  induction s as [|c s IH]; intros x y H; simpl in H.
  - subst. apply reads_nil.
  - destruct H as (z & (ch & a & Ha & Hc & ->) & H).
    simpl in Hc. subst ch. apply IH in H.
    change (c :: s) with ([c] ++ s). eapply reads_app; [|exact H].
    split; simpl; [assumption|reflexivity].
Qed.

End MatcherFacts.

(** ** Facts about the patterns of the server *)

Section PatternFacts.
Import Js Trace Server Vocabulary.

Lemma fwd_variableTypes x y :
  fwd false (alts (lit (str "STRING"))
               [lit (str "INT"); lit (str "FLOAT"); lit (str "CHAR")]) x y ->
  exists ty, In ty variableTypes /\ reads ty x y.
Proof.
  intros H. cbn [alts fwd] in H.
  destruct H as [H|[H|[H|H]]]; apply fwd_lit in H; eexists; (split; [|exact H]);
    unfold variableTypes; simpl; auto.
Qed.

(** A match of the variable pattern: a type keyword, then white space and
    an identifier, at a place not preceded by the FN keyword. *)
Lemma paramRegex_match x y :
  fwd false (pattern paramRegex) x y ->
  exists ty ws id,
    In ty variableTypes /\ reads (ty ++ ws ++ id) x y /\
    captures y = <[2%nat := id]> (<[1%nat := ty]> (captures x)) /\
    matcher false Backward notAfterFN x Some = None.
Proof.
  intros H. cbn [pattern paramRegex terms] in H.
  destruct H as (z1 & [-> Hnb] & z2 & H2 & z3 & H3 & z4 & H4 & z5 & H5 & H6).
  cbn [fwd] in H5, H6. destruct H5 as [-> _]. subst y.
  apply fwd_group in H2; [|reflexivity].
  destruct H2 as (ty & z & Hty & Hrz & Hr2 & Hc2).
  apply fwd_variableTypes in Hty. destruct Hty as (ty' & Hin & Hr).
  rewrite (reads_inj _ _ _ _ Hr Hrz) in Hin. clear ty' Hr.
  assert (Hc3 := fwd_no_groups false (RRep 1 CsSpace) _ _ eq_refl H3).
  apply fwd_reads in H3. destruct H3 as (ws & Hr3).
  apply fwd_group in H4; [|reflexivity].
  destruct H4 as (id & z' & _ & _ & Hr4 & Hc4).
  exists ty, ws, id.
  split; [assumption|].
  split; [eauto using reads_app|].
  split; [|assumption].
  rewrite Hc4, Hc3, Hc2. reflexivity.
Qed.

(** A match of the header pattern defines both of its groups. *)
Lemma functionStart_match x y :
  fwd true (pattern functionStartPattern) x y ->
  exists fname paramsString,
    captures y = <[2%nat := paramsString]> (<[1%nat := fname]> (captures x)).
Proof.
  intros H. cbn [pattern functionStartPattern terms] in H.
  destruct H as (z1 & [-> _] & z2 & H2 & z3 & H3 & z4 & H4 & z5 & H5 &
                 z6 & H6 & z7 & H7 & z8 & H8 & z9 & H9 & z10 & H10 & H11).
  cbn [fwd] in H11. subst y.
  apply fwd_no_groups in H2, H3, H4, H5, H7, H8, H10; try reflexivity.
  apply fwd_group in H6; [|reflexivity].
  destruct H6 as (fname & _ & _ & _ & _ & Hc6).
  apply fwd_group in H9; [|reflexivity].
  destruct H9 as (ps & _ & _ & _ & _ & Hc9).
  exists fname, ps.
  rewrite H10, Hc9, H8, H7, Hc6, H5, H4, H3, H2. reflexivity.
Qed.

(** A match of the validator's pattern is two or more capital letters. *)
Lemma allCaps_match x y w :
  fwd false (pattern allCapsPattern) x y -> reads w x y ->
  (2 <= length w)%nat /\ Forall (fun c => isUpper c = true) w.
Proof.
  intros H Hw. cbn [pattern allCapsPattern terms fwd] in H.
  destruct H as (z1 & [-> _] & z2 & (w' & Hlen & Hall & Ha & Hb & _) &
                 z3 & [-> _] & ->).
  assert (w = w') by (eapply reads_inj; [exact Hw|split; assumption]).
  subst w'. split; [assumption|].
  eapply Forall_impl; [exact Hall|]. intros c Hc.
  unfold cs_match in Hc. simpl in Hc. rewrite orb_false_r in Hc. exact Hc.
Qed.

End PatternFacts.

(** ** The loops of the server end *)

Section LoopFacts.
Import Js Trace Server Vocabulary.

Lemma variableTypes_length ty : In ty variableTypes -> (3 <= length ty)%nat.
Proof.
  unfold variableTypes. simpl.
  intros [<-|[<-|[<-|[<-|[]]]]]; simpl; lia.
Qed.

(** One [exec] of the variable pattern: no match and [lastIndex] back at 0,
    or a match with both groups, the first a type keyword, that ends after
    the place the search started from. *)
Lemma paramRegex_exec line i :
  match exec (setLastIndex i paramRegex) line with
  | (None, R') => R' = paramRegex
  | (Some m, R') =>
      exists ty id j,
        In ty variableTypes /\
        groups m !! 1%nat = Some ty /\ groups m !! 2%nat = Some id /\
        matcher false Backward notAfterFN
          (mkState (rev (take (index m) line)) (drop (index m) line) ∅) Some
          = None /\
        (i < j <= length line)%nat /\ R' = setLastIndex j paramRegex
  end.
Proof.
  destruct (exec (setLastIndex i paramRegex) line) as [[m|] R'] eqn:He.
  - apply exec_some in He.
    destruct He as (x & y & Hf & Hr & Hs & Hc & Hi & Hg & Hlo & Hhi & ->).
    change (ignoreCase (setLastIndex i paramRegex)) with false in Hf.
    change (pattern (setLastIndex i paramRegex)) with (pattern paramRegex) in Hf.
    change (global (setLastIndex i paramRegex)) with true in *.
    change (lastIndex (setLastIndex i paramRegex)) with i in Hlo.
    cbv iota in Hlo |- *.
    apply paramRegex_match in Hf.
    destruct Hf as (ty & ws & id & Hin & Hr' & Hcap & Hnb).
    pose proof (reads_inj _ _ _ _ Hr Hr') as Hm.
    pose proof (variableTypes_length _ Hin) as Hty.
    exists ty, id, (index m + length (matched m))%nat.
    split; [assumption|].
    rewrite Hg, Hcap, Hc.
    split; [rewrite lookup_insert_ne by discriminate; apply lookup_insert_eq|].
    split; [apply lookup_insert_eq|].
    split.
    { replace (mkState (rev (take (index m) line)) (drop (index m) line) ∅)
        with x; [assumption|].
      destruct x as [b a c]. simpl in *. subst c.
      assert (Hb : b = rev (take (index m) line)).
      { rewrite <- Hs, Hi. unfold endIndex. simpl.
        rewrite <- (length_rev b), take_app_length, rev_involutive.
        reflexivity. }
      assert (Ha : a = drop (index m) line).
      { rewrite <- Hs, Hi. unfold endIndex. simpl.
        rewrite <- (length_rev b), drop_app_length. reflexivity. }
      rewrite <- Hb, <- Ha. reflexivity. }
    split; [|reflexivity].
    rewrite Hm, !length_app in *. lia.
  - apply exec_none in He. subst R'. reflexivity.
Qed.

Lemma variableLoop_total fuel : forall line decls i,
  (S (length line) - i <= fuel)%nat -> (1 <= fuel)%nat ->
  exists more,
    variableLoop fuel line (decls, setLastIndex i paramRegex)
      = Ok (decls ++ more, paramRegex) /\
    Forall (fun v => In (containerName v) variableTypes) more.
Proof.
  induction fuel as [|fuel IH]; intros line decls i Hf H1; [lia|].
  cbn [variableLoop fst snd].
  pose proof (paramRegex_exec line i) as He.
  destruct (exec (setLastIndex i paramRegex) line) as [[m|] R'].
  - destruct He as (ty & id & j & Hin & H1' & H2' & _ & Hj & ->).
    unfold capture. rewrite H1', H2'. cbn [bind].
    destruct (IH line (decls ++ [mkVariable id ty]) j) as (more & Hm & Hall);
      [lia|lia|].
    exists (mkVariable id ty :: more). rewrite Hm.
    split; [rewrite <- app_assoc; reflexivity|].
    constructor; assumption.
  - subst R'. exists []. rewrite app_nil_r. split; [reflexivity|constructor].
Qed.

Lemma variableLine_total line decls :
  exists more,
    variableLine (decls, paramRegex) line = Ok (decls ++ more, paramRegex) /\
    Forall (fun v => In (containerName v) variableTypes) more.
Proof.
  unfold variableLine.
  apply (variableLoop_total (S (length line)) line decls 0); lia.
Qed.

Lemma variableLines_total lines : forall decls,
  exists more,
    forEach variableLine lines (decls, paramRegex)
      = Ok (decls ++ more, paramRegex) /\
    Forall (fun v => In (containerName v) variableTypes) more.
Proof.
  induction lines as [|line lines IH]; intros decls.
  - exists []. rewrite app_nil_r. split; [reflexivity|constructor].
  - cbn [forEach].
    destruct (variableLine_total line decls) as (m1 & -> & Hall1).
    cbn [bind].
    destruct (IH (decls ++ m1)) as (m2 & -> & Hall2).
    exists (m1 ++ m2). rewrite app_assoc. split; [reflexivity|].
    apply Forall_app; auto.
Qed.

Lemma extractVariableDeclarations_total document :
  exists decls,
    extractVariableDeclarations document = Ok decls /\
    Forall (fun v => In (containerName v) variableTypes) decls.
Proof.
  unfold extractVariableDeclarations.
  destruct (variableLines_total (split 10 (getText document)) [])
    as (more & -> & Hall).
  exists more. split; [reflexivity|assumption].
Qed.

(** A header match has both groups. *)
Lemma functionStart_groups line m :
  matchFirst line functionStartPattern = Some m ->
  exists fname paramsString,
    groups m !! 1%nat = Some fname /\ groups m !! 2%nat = Some paramsString.
Proof.
  unfold matchFirst.
  destruct (exec functionStartPattern line) as [[m'|] R'] eqn:He;
    [|discriminate].
  intros H. inversion H; subst m'; clear H.
  apply exec_some in He.
  destruct He as (x & y & Hf & _ & _ & Hc & _ & Hg & _).
  apply functionStart_match in Hf. destruct Hf as (fname & ps & Hcap).
  exists fname, ps. rewrite Hg, Hcap.
  split; [rewrite lookup_insert_ne by discriminate|]; apply lookup_insert_eq.
Qed.

Lemma pushTypedParam_app ms : forall acc,
  foldl pushTypedParam acc ms = acc ++ foldl pushTypedParam [] ms.
Proof.
  induction ms as [|mt ms IH]; intros acc; cbn [foldl].
  - rewrite app_nil_r. reflexivity.
  - rewrite (IH (pushTypedParam acc mt)), (IH (pushTypedParam [] mt)).
    rewrite app_assoc. f_equal.
    unfold pushTypedParam.
    destruct (split 58 mt) as [|p0 [|p1 [|p2 ps]]];
      rewrite ?app_nil_r; reflexivity.
Qed.

(** The three moves of the scanner. *)
Lemma scanLine_header sc line m fname paramsString :
  isInFunction sc = false ->
  matchFirst line functionStartPattern = Some m ->
  groups m !! 1%nat = Some fname ->
  groups m !! 2%nat = Some paramsString ->
  scanLine sc line
    = Ok (mkScan (functionDeclarations sc) fname
            (map trim (split 44 paramsString)) true).
Proof.
  intros Hout Hm H1 H2. unfold scanLine, capture.
  rewrite Hout, Hm, H1, H2. reflexivity.
Qed.

Lemma scanLine_skip sc line :
  isInFunction sc = false ->
  matchFirst line functionStartPattern = None ->
  scanLine sc line = Ok sc.
Proof.
  intros Hout Hm. unfold scanLine. rewrite Hout, Hm. reflexivity.
Qed.

Lemma scanLine_body sc line :
  isInFunction sc = true -> isEndFn line = false ->
  scanLine sc line
    = Ok (mkScan (functionDeclarations sc) (functionName sc)
            (functionParams sc ++ typedParams line) true).
Proof.
  intros Hin Hend. unfold scanLine, typedParams. unfold isEndFn in Hend.
  rewrite Hin, Hend.
  destruct (matchGlobal_total line typedParamPattern eq_refl) as [ms ->].
  cbn [bind]. destruct ms as [ms|].
  - rewrite pushTypedParam_app. reflexivity.
  - rewrite app_nil_r. destruct sc; simpl in *; subst; reflexivity.
Qed.

Lemma scanLine_end sc line :
  isInFunction sc = true -> isEndFn line = true ->
  scanLine sc line
    = Ok (mkScan
            (functionDeclarations sc ++
               [mkFunction (functionName sc) (functionParams sc)])
            [] [] false).
Proof.
  intros Hin Hend. unfold scanLine. unfold isEndFn in Hend.
  rewrite Hin, Hend. reflexivity.
Qed.

Lemma scanLine_total sc line : exists sc', scanLine sc line = Ok sc'.
Proof.
  destruct (isInFunction sc) eqn:Hin.
  - destruct (isEndFn line) eqn:Hend.
    + rewrite scanLine_end by assumption. eauto.
    + rewrite scanLine_body by assumption. eauto.
  - destruct (matchFirst line functionStartPattern) as [m|] eqn:Hm.
    + destruct (functionStart_groups _ _ Hm) as (fname & ps & H1 & H2).
      erewrite scanLine_header by eassumption. eauto.
    + rewrite scanLine_skip by assumption. eauto.
Qed.

Lemma scanLines_total lines : forall sc,
  exists sc', forEach scanLine lines sc = Ok sc'.
Proof.
  induction lines as [|line lines IH]; intros sc; cbn [forEach]; [eauto|].
  destruct (scanLine_total sc line) as [sc1 ->]. cbn [bind]. apply IH.
Qed.

Lemma extractFunctionDeclarations_total document :
  exists decls, extractFunctionDeclarations document = Ok decls.
Proof.
  unfold extractFunctionDeclarations.
  destruct (scanLines_total (split 10 (getText document)) scanStart)
    as [sc ->].
  cbn [bind]. eauto.
Qed.

Lemma forEach_app {A St} (f : St -> A -> result St) xs ys s s1 :
  forEach f xs s = Ok s1 -> forEach f (xs ++ ys) s = forEach f ys s1.
Proof.
  revert s. induction xs as [|x xs IH]; intros s H; cbn [forEach app] in *.
  - inversion H. reflexivity.
  - destruct (f s x) as [s'| |]; cbn [bind] in *; try discriminate.
    apply IH. assumption.
Qed.

Lemma scanLine_headerGroup sc line fname paramsString :
  isInFunction sc = false ->
  headerGroup 1 line = Some fname ->
  headerGroup 2 line = Some paramsString ->
  scanLine sc line
    = Ok (mkScan (functionDeclarations sc) fname
            (map trim (split 44 paramsString)) true).
Proof.
  unfold headerGroup. intros Hout H1 H2.
  destruct (matchFirst line functionStartPattern) as [m|] eqn:Hm;
    [|discriminate].
  eapply scanLine_header; eassumption.
Qed.

Lemma isHeader_groups line :
  isHeader line = true ->
  exists fname paramsString,
    headerGroup 1 line = Some fname /\
    headerGroup 2 line = Some paramsString.
Proof.
  unfold isHeader, headerGroup.
  destruct (matchFirst line functionStartPattern) as [m|] eqn:Hm;
    [|discriminate].
  intros _. exact (functionStart_groups _ _ Hm).
Qed.

(** Inside a function, lines that do not close it only add parameters. *)
Lemma scanLines_body body : forall sc,
  isInFunction sc = true ->
  Forall (fun l => isEndFn l = false) body ->
  forEach scanLine body sc
    = Ok (mkScan (functionDeclarations sc) (functionName sc)
            (functionParams sc ++ concat (map typedParams body)) true).
Proof.
  induction body as [|l body IH]; intros sc Hin Hall; cbn [forEach map concat].
  - rewrite app_nil_r. destruct sc; simpl in *; subst; reflexivity.
  - inversion Hall as [|? ? Hl Hall']; subst.
    rewrite scanLine_body by assumption. cbn [bind].
    rewrite IH by (try assumption; reflexivity).
    cbn [functionDeclarations functionName functionParams].
    rewrite app_assoc. reflexivity.
Qed.

(** A header line, body lines and a closing line, read from outside a
    function: one declaration, whose parameters are the header's pieces
    followed by what the body lines add. *)
Lemma scanLines_block sc header fname paramsString body closing :
  isInFunction sc = false ->
  headerGroup 1 header = Some fname ->
  headerGroup 2 header = Some paramsString ->
  Forall (fun l => isEndFn l = false) body ->
  isEndFn closing = true ->
  forEach scanLine (header :: body ++ [closing]) sc
    = Ok (mkScan
            (functionDeclarations sc ++
               [mkFunction fname
                  (map trim (split 44 paramsString)
                     ++ concat (map typedParams body))])
            [] [] false).
Proof.
  intros Hout H1 H2 Hbody Hend. cbn [forEach].
  rewrite (scanLine_headerGroup _ _ _ _ Hout H1 H2). cbn [bind].
  erewrite forEach_app by (apply scanLines_body; [reflexivity|assumption]).
  cbn [forEach]. rewrite scanLine_end by (try assumption; reflexivity).
  reflexivity.
Qed.

(** The scanner only ever adds declarations. *)
Lemma scanLine_keeps sc line sc' :
  scanLine sc line = Ok sc' ->
  exists more, functionDeclarations sc' = functionDeclarations sc ++ more.
Proof.
  destruct (isInFunction sc) eqn:Hin.
  - destruct (isEndFn line) eqn:Hend.
    + rewrite scanLine_end by assumption. intros H; inversion H. eauto.
    + rewrite scanLine_body by assumption. intros H; inversion H.
      exists []. rewrite app_nil_r. reflexivity.
  - destruct (matchFirst line functionStartPattern) as [m|] eqn:Hm.
    + destruct (functionStart_groups _ _ Hm) as (fname & ps & H1 & H2).
      erewrite scanLine_header by eassumption. intros H; inversion H.
      exists []. rewrite app_nil_r. reflexivity.
    + rewrite scanLine_skip by assumption. intros H; inversion H.
      exists []. rewrite app_nil_r. reflexivity.
Qed.

Lemma scanLines_keep lines : forall sc sc',
  forEach scanLine lines sc = Ok sc' ->
  exists more, functionDeclarations sc' = functionDeclarations sc ++ more.
Proof.
  induction lines as [|line lines IH]; intros sc sc' H; cbn [forEach] in H.
  - inversion H. exists []. rewrite app_nil_r. reflexivity.
  - destruct (scanLine sc line) as [sc1| |] eqn:H1; cbn [bind] in H;
      try discriminate.
    apply scanLine_keeps in H1. apply IH in H.
    destruct H1 as [m1 H1], H as [m2 H2].
    exists (m1 ++ m2). rewrite H2, H1, app_assoc. reflexivity.
Qed.

(** The validation loop ends. It leaves [diagnostics] as it found it, and
    goes through its body for the first matches, as many as the cap still
    allows. *)
Lemma validateLoop_total fuel sv settings textDocument : forall i run,
  (S (length (getText textDocument)) - i <= fuel)%nat -> (1 <= fuel)%nat ->
  let ms :=
    take (Z.to_nat (maxNumberOfProblems settings - problems run))
      (matchesFrom fuel (setLastIndex i allCapsPattern)
         (getText textDocument)) in
  validateLoop fuel sv settings textDocument
    (setLastIndex i allCapsPattern) run
  = Ok (mkRun (problems run + Z.of_nat (length ms)) (diagnostics run)
          (built run ++ map (makeDiagnostic sv textDocument) ms)).
Proof.
  induction fuel as [|fuel IH]; intros i run Hf H1; [lia|].
  cbn [validateLoop matchesFrom].
  destruct (exec (setLastIndex i allCapsPattern) (getText textDocument))
    as [[m|] R'] eqn:He.
  - apply exec_some in He.
    destruct He as (x & y & Hfw & Hr & _ & _ & _ & _ & Hlo & Hhi & ->).
    change (global (setLastIndex i allCapsPattern)) with true in *.
    change (lastIndex (setLastIndex i allCapsPattern)) with i in Hlo.
    cbv iota in Hlo |- *.
    destruct (allCaps_match _ _ _ Hfw Hr) as [Hlen _].
    change (setLastIndex ?j (setLastIndex i allCapsPattern))
      with (setLastIndex j allCapsPattern).
    destruct (Z.ltb_spec (problems run) (maxNumberOfProblems settings))
      as [Hlt|Hge].
    + rewrite IH by lia. cbv zeta. cbn [problems diagnostics built].
      replace (Z.to_nat (maxNumberOfProblems settings - problems run))
        with (S (Z.to_nat (maxNumberOfProblems settings - (problems run + 1))))
        by lia.
      cbn [take map length]. rewrite <- app_assoc. do 2 f_equal. lia.
    + cbv zeta.
      replace (Z.to_nat (maxNumberOfProblems settings - problems run))
        with O by lia.
      cbn [take map length]. rewrite app_nil_r, Z.add_0_r.
      destruct run; reflexivity.
  - cbv zeta. rewrite take_nil. cbn [map length].
    rewrite app_nil_r, Z.add_0_r. destruct run; reflexivity.
Qed.

Lemma validateWith_total sv settings textDocument :
  let ms := take (Z.to_nat (maxNumberOfProblems settings))
              (allCapsMatches (getText textDocument)) in
  validateWith sv settings textDocument
  = Ok (mkRun (Z.of_nat (length ms)) []
          (map (makeDiagnostic sv textDocument) ms)).
Proof.
  pose proof (validateLoop_total (S (length (getText textDocument))) sv
                settings textDocument 0 (mkRun 0 [] [])) as H.
  cbv zeta in H. cbn [problems diagnostics built] in H.
  rewrite Z.sub_0_r in H. apply H; lia.
Qed.

(** Reading backward, a greedy class takes a whole run and goes on. *)
Lemma repBackward_run ic cs u : forall min caps k rest aft res,
  Forall (fun c => cs_match ic cs c = true) u ->
  (min <= length u)%nat ->
  match rest with c :: _ => cs_match ic cs c = false | [] => True end ->
  k (mkState rest (rev u ++ aft) caps) = Some res ->
  repBackward ic cs min caps k (u ++ rest) aft = Some res.
Proof.
  induction u as [|c u IH]; intros min caps k rest aft res Hall Hmin Hrest Hk.
  - simpl in Hmin, Hk |- *. assert (min = O) by lia. subst min.
    destruct rest as [|c rest]; simpl; [assumption|].
    rewrite Hrest. assumption.
  - inversion Hall as [|? ? Hc Hall']; subst.
    assert (Hrec : forall min', (min' <= length u)%nat ->
              repBackward ic cs min' caps k (u ++ rest) (c :: aft) = Some res).
    { intros min' Hmin'. apply IH; try assumption.
      simpl in Hk. rewrite <- app_assoc in Hk. exact Hk. }
    simpl. rewrite Hc. destruct min as [|min'].
    + rewrite Hrec by lia. reflexivity.
    + apply Hrec. simpl in Hmin. lia.
Qed.

(** Behind the keyword FN and white space, the lookbehind of the variable
    pattern finds its match. *)
Lemma notAfterFN_found p ws aft :
  endsInWord p = false -> ws <> [] ->
  Forall (fun c => isWhiteSpace c = true) ws ->
  exists y,
    matcher false Backward notAfterFN
      (mkState (rev (p ++ str "FN" ++ ws)) aft ∅) Some = Some y.
Proof.
  intros Hp Hne Hws.
  exists (mkState (rev p) (str "FN" ++ rev (rev ws) ++ aft) ∅).
  rewrite !rev_app_distr, <- app_assoc.
  unfold notAfterFN. change (str "FN") with [70; 78].
  cbn [terms matcher before after captures].
  apply repBackward_run.
  - apply Forall_rev. eapply Forall_impl; [exact Hws|].
    intros c Hc. unfold cs_match. simpl. rewrite Hc. reflexivity.
  - rewrite length_rev. destruct ws; [congruence|simpl; lia].
  - reflexivity.
  - cbn [rev app lit matcher advance before after captures].
    change (canonicalize false 78 =? canonicalize false 78) with true.
    change (canonicalize false 70 =? canonicalize false 70) with true.
    cbv iota. unfold isWordBoundary. cbn [before after].
    unfold endsInWord in Hp. destruct (rev p); rewrite ?Hp; reflexivity.
Qed.

(** So no match of the variable pattern starts there. *)
Lemma paramRegex_suppressed p ws rest i m R' :
  endsInWord p = false -> ws <> [] ->
  Forall (fun c => isWhiteSpace c = true) ws ->
  exec (setLastIndex i paramRegex) (p ++ str "FN" ++ ws ++ rest) = (Some m, R') ->
  index m <> length (p ++ str "FN" ++ ws).
Proof.
  intros Hp Hne Hws He Hi.
  pose proof (paramRegex_exec (p ++ str "FN" ++ ws ++ rest) i) as H.
  rewrite He in H. destruct H as (_ & _ & _ & _ & _ & _ & Hnb & _).
  rewrite Hi in Hnb.
  replace (p ++ str "FN" ++ ws ++ rest)
    with ((p ++ str "FN" ++ ws) ++ rest) in Hnb
    by (rewrite <- !app_assoc; reflexivity).
  rewrite take_app_length, drop_app_length in Hnb.
  destruct (notAfterFN_found p ws rest Hp Hne Hws) as [y Hy].
  congruence.
Qed.

End LoopFacts.

(** ** The handlers *)

Section HandlerFacts.
Import Js Trace Server Vocabulary.

(** The validator returns an empty array whatever the text, the settings
    and the capabilities are: the loop never adds to [diagnostics]. *)
Lemma validateTextDocument_empty getConfiguration sv textDocument :
  fst (validateTextDocument getConfiguration sv textDocument) = Ok [].
Proof.
  unfold validateTextDocument.
  destruct (getDocumentSettings getConfiguration sv (uri textDocument))
    as [settings sv'].
  rewrite validateWith_total. reflexivity.
Qed.

(** A function block read from outside a function puts a Function item in
    the completion list, labelled with what group 1 of the header pattern
    captured. *)
Lemma completions_include_captured_name
    document pre sc header fname paramsString body closing post :
  split 10 (getText document) = pre ++ header :: body ++ closing :: post ->
  forEach scanLine pre scanStart = Ok sc ->
  isInFunction sc = false ->
  headerGroup 1 header = Some fname ->
  headerGroup 2 header = Some paramsString ->
  Forall (fun l => isEndFn l = false) body ->
  isEndFn closing = true ->
  exists completionItems,
    computeCompletions document = Ok completionItems /\
    In (mkItem fname FunctionKind None) completionItems.
Proof.
  intros Hs Hpre Hout H1 H2 Hb Hc.
  destruct (extractVariableDeclarations_total document) as (vs & Hv & _).
  assert (Hf : exists before after,
             extractFunctionDeclarations document
             = Ok (before ++ mkFunction fname
                     (map trim (split 44 paramsString)
                        ++ concat (map typedParams body)) :: after)).
  { unfold extractFunctionDeclarations. rewrite Hs.
    rewrite (forEach_app _ _ _ _ _ Hpre).
    replace (header :: body ++ closing :: post)
      with ((header :: body ++ [closing]) ++ post)
      by (simpl; rewrite <- app_assoc; reflexivity).
    rewrite (forEach_app _ _ post _ _
               (scanLines_block sc header fname paramsString body closing
                  Hout H1 H2 Hb Hc)).
    destruct (scanLines_total post
                (mkScan
                   (functionDeclarations sc ++
                      [mkFunction fname
                         (map trim (split 44 paramsString)
                            ++ concat (map typedParams body))])
                   [] [] false)) as [sc' Hpost].
    rewrite Hpost. cbn [bind].
    apply scanLines_keep in Hpost. destruct Hpost as [more Hmore].
    cbn [functionDeclarations] in Hmore.
    exists (functionDeclarations sc), more.
    rewrite Hmore, <- app_assoc. reflexivity. }
  destruct Hf as (before & after & Hf).
  eexists. unfold computeCompletions. rewrite Hv, Hf. cbn [bind].
  split; [reflexivity|].
  rewrite !in_app_iff. right. right.
  rewrite map_app, in_app_iff. right. left. reflexivity.
Qed.

Lemma computeCompletions_total document :
  exists variableDeclarations functionDeclarations,
    extractVariableDeclarations document = Ok variableDeclarations /\
    extractFunctionDeclarations document = Ok functionDeclarations /\
    computeCompletions document
      = Ok (fixedItems ++ map variableItem variableDeclarations
                       ++ map functionItem functionDeclarations).
Proof.
  destruct (extractVariableDeclarations_total document) as (vs & Hv & _).
  destruct (extractFunctionDeclarations_total document) as (fs & Hf).
  exists vs, fs. unfold computeCompletions. rewrite Hv, Hf.
  repeat split; reflexivity.
Qed.

(** The capability variable is set exactly when the client declared the
    support. *)
Lemma onInitialize_relatedInformation capabilities sv :
  hasDiagnosticRelatedInformationCapability (onInitialize capabilities sv)
    = true
  <-> declaresRelatedInformation capabilities.
Proof.
  unfold onInitialize, declaresRelatedInformation. cbn.
  destruct (textDocument capabilities) as [td|].
  - destruct (publishDiagnostics td) as [pd|] eqn:Hpd.
    + destruct (cap_relatedInformation pd) as [[|]|] eqn:Hri; cbn.
      * split; [intros _; eauto 6|reflexivity].
      * split; [discriminate|].
        intros (td' & pd' & H1 & H2 & H3). congruence.
      * split; [discriminate|].
        intros (td' & pd' & H1 & H2 & H3). congruence.
    + split; [discriminate|].
      intros (td' & pd' & H1 & H2 & H3). congruence.
  - split; [discriminate|].
    intros (td' & pd' & H1 & H2 & H3). congruence.
Qed.

(** Asking twice for the settings of a document gives the same settings,
    and the second request leaves the server as the first left it. *)
Lemma getDocumentSettings_again getConfiguration sv resource :
  let first := getDocumentSettings getConfiguration sv resource in
  getDocumentSettings getConfiguration (snd first) resource
    = (fst first, snd first).
Proof.
  cbv zeta.
  destruct (getDocumentSettings getConfiguration sv resource)
    as [s sv1] eqn:H1.
  cbn [fst snd]. unfold getDocumentSettings in *.
  destruct (hasConfigurationCapability sv) eqn:Hc; cbn [negb] in *.
  - destruct (documentSettings sv !! resource) as [s0|] eqn:Hs;
      inversion H1; subst; clear H1.
    + rewrite Hc, Hs. reflexivity.
    + cbn [hasConfigurationCapability documentSettings negb].
      rewrite lookup_insert_eq. reflexivity.
  - inversion H1; subst. rewrite Hc. reflexivity.
Qed.

Lemma getDocumentSettings_documents getConfiguration sv resource :
  documents (snd (getDocumentSettings getConfiguration sv resource))
    = documents sv.
Proof.
  unfold getDocumentSettings.
  destruct (hasConfigurationCapability sv); cbn [negb]; [|reflexivity].
  destruct (documentSettings sv !! resource); reflexivity.
Qed.

End HandlerFacts.

(** ** The properties of the specification *)

Section Properties.
Import Js Trace Server Vocabulary.

(** C1. The validator on the text [ABC def GHI] with
    [maxNumberOfProblems = 1]: the loop goes through its body once and
    builds the Warning diagnostic for [ABC] at offsets 0 to 3 with the
    message [ABC is all uppercase.], but the array it returns is empty. For
    every document and settings the loop builds a diagnostic for each of
    the first min(k, m) ALL-CAPS tokens, and the returned array is empty
    all the same. *)
Theorem validate_ABC_def_GHI_returns_no_diagnostic :
  (forall getConfiguration u p,
     let sv := mkServer false false false (mkSettings 1) ∅ ∅ in
     let document := mkDocument u (str "ABC def GHI") p in
     validateWith sv (mkSettings 1) document
       = Ok (mkRun 1 []
               [mkDiagnostic Warning (mkRange (p 0%nat) (p 3%nat))
                  (str "ABC is all uppercase.") (str "ex") None]) /\
     validateTextDocument getConfiguration sv document = (Ok [], sv)) /\
  (forall sv settings document,
     let ms := take (Z.to_nat (maxNumberOfProblems settings))
                 (allCapsMatches (getText document)) in
     validateWith sv settings document
       = Ok (mkRun (Z.of_nat (length ms)) []
               (map (makeDiagnostic sv document) ms)) /\
     length ms = Nat.min (length (allCapsMatches (getText document)))
                   (Z.to_nat (maxNumberOfProblems settings))) /\
  (forall getConfiguration sv document,
     fst (validateTextDocument getConfiguration sv document) = Ok []).
Proof.
  split; [|split].
  - intros getConfiguration u p. cbv zeta. split; vm_compute; reflexivity.
  - intros sv settings document. cbv zeta.
    split; [apply validateWith_total|].
    rewrite length_take. lia.
  - apply validateTextDocument_empty.
Qed.

(** C2, as the claim states it, fails: the one-line text
    [FN STRING greet(name: STRING) END FN] yields no declaration at all. *)
Lemma greet_single_line_yields_no_symbol :
  extractFunctionDeclarations
    (documentOf ["FN STRING greet(name: STRING) END FN"]) = Ok [] /\
  extractFunctionDeclarations
    (documentOf ["FN STRING greet(name: STRING) END FN"])
  <> Ok [mkFunction (str "greet") [str "name"; str "STRING name"]].
Proof.
  split; [vm_compute; reflexivity|].
  vm_compute. discriminate.
Qed.

(** C2, amended. The one-line text yields no declaration, because a header
    line is not looked at for [END FN]; with [END FN] on the next line the
    text yields the single declaration [greet] with params
    [["name: STRING"]]; and for every document made of a header line, body
    lines and a closing line, the single declaration has the name the
    header pattern captured and, as params, the trimmed comma-separated
    pieces of the header's parameter text followed by the [TYPE name]
    entries of the body lines, in that order. *)
Theorem greet_params_header_pieces_then_body :
  (forall u p,
     extractFunctionDeclarations
       (mkDocument u (text ["FN STRING greet(name: STRING) END FN"]) p)
     = Ok []) /\
  (forall u p,
     extractFunctionDeclarations
       (mkDocument u (text ["FN STRING greet(name: STRING)"; "END FN"]) p)
     = Ok [mkFunction (str "greet") [str "name: STRING"]]) /\
  (forall document header fname paramsString body closing,
     split 10 (getText document) = header :: body ++ [closing] ->
     headerGroup 1 header = Some fname ->
     headerGroup 2 header = Some paramsString ->
     Forall (fun l => isEndFn l = false) body ->
     isEndFn closing = true ->
     extractFunctionDeclarations document
     = Ok [mkFunction fname
             (map trim (split 44 paramsString)
                ++ concat (map typedParams body))]).
Proof.
  split; [intros; vm_compute; reflexivity|].
  split; [intros; vm_compute; reflexivity|].
  intros document header fname paramsString body closing Hs H1 H2 Hb Hc.
  unfold extractFunctionDeclarations. rewrite Hs.
  rewrite (scanLines_block scanStart header fname paramsString body closing)
    by (try assumption; reflexivity).
  reflexivity.
Qed.

Lemma greet_params_header_pieces_then_body_witness :
  let document :=
    documentOf ["FN STRING greet(name: STRING)"; "  name : STRING"; "END FN"] in
  split 10 (getText document)
    = str "FN STRING greet(name: STRING)"
        :: [str "  name : STRING"] ++ [str "END FN"] /\
  headerGroup 1 (str "FN STRING greet(name: STRING)") = Some (str "greet") /\
  headerGroup 2 (str "FN STRING greet(name: STRING)")
    = Some (str "name: STRING") /\
  extractFunctionDeclarations document
  = Ok [mkFunction (str "greet")
          (map trim (split 44 (str "name: STRING"))
             ++ concat (map typedParams [str "  name : STRING"]))] /\
  map trim (split 44 (str "name: STRING"))
    ++ concat (map typedParams [str "  name : STRING"])
  = [str "name: STRING"; str "STRING name"].
Proof.
  cbv zeta.
  assert (Hs : split 10 (getText (documentOf
                 ["FN STRING greet(name: STRING)"; "  name : STRING";
                  "END FN"]))
               = str "FN STRING greet(name: STRING)"
                   :: [str "  name : STRING"] ++ [str "END FN"])
    by (vm_compute; reflexivity).
  assert (H1 : headerGroup 1 (str "FN STRING greet(name: STRING)")
               = Some (str "greet")) by (vm_compute; reflexivity).
  assert (H2 : headerGroup 2 (str "FN STRING greet(name: STRING)")
               = Some (str "name: STRING")) by (vm_compute; reflexivity).
  split; [exact Hs|]. split; [exact H1|]. split; [exact H2|].
  split; [|vm_compute; reflexivity].
  apply (proj2 (proj2 greet_params_header_pieces_then_body) _ _ _ _ _ _
           Hs H1 H2).
  - repeat constructor.
  - vm_compute; reflexivity.
Defined.

(** C3. The document with the lines [FN interest(x)] and [END FN] is one
    well-formed function block named [interest]; the completion list has,
    after the fixed items, the single Function item labelled [erest], and
    no item labelled [interest]: the optional return type keyword of the
    header pattern, which ignores case, takes the [int] of the name. *)
Theorem completions_interest_labelled_erest :
  forall u p,
    let document := mkDocument u (text ["FN interest(x)"; "END FN"]) p in
    extractFunctionDeclarations document
      = Ok [mkFunction (str "erest") [str "x"]] /\
    computeCompletions document
      = Ok (fixedItems ++ [mkItem (str "erest") FunctionKind None]) /\
    existsb (fun item => jsstring_eqb (label item) (str "interest"))
      (fixedItems ++ [mkItem (str "erest") FunctionKind None]) = false.
Proof.
  intros u p. cbv zeta. repeat split; vm_compute; reflexivity.
Qed.

(** C4. The text with the lines [FN foo(a)] and [ INT x] and no [END FN]:
    the function extractor returns no declaration, without an error, the
    validator returns no diagnostic, and the variable extractor returns
    exactly [x] of type [INT]. In general, when the lines after a header
    read from outside a function have no closing line, the result is what
    had been closed before the header: nothing is emitted for the open
    function. *)
Theorem unterminated_function_dropped :
  (forall u p,
     let document := mkDocument u (text ["FN foo(a)"; " INT x"]) p in
     extractFunctionDeclarations document = Ok [] /\
     extractVariableDeclarations document
       = Ok [mkVariable (str "x") (str "INT")] /\
     forall getConfiguration sv,
       fst (validateTextDocument getConfiguration sv document) = Ok []) /\
  (forall document pre sc header body,
     split 10 (getText document) = pre ++ header :: body ->
     forEach scanLine pre scanStart = Ok sc ->
     isInFunction sc = false ->
     isHeader header = true ->
     Forall (fun l => isEndFn l = false) body ->
     extractFunctionDeclarations document = Ok (functionDeclarations sc)).
Proof.
  split.
  - intros u p. cbv zeta.
    split; [vm_compute; reflexivity|].
    split; [vm_compute; reflexivity|].
    intros. apply validateTextDocument_empty.
  - intros document pre sc header body Hs Hpre Hout Hh Hb.
    unfold extractFunctionDeclarations. rewrite Hs.
    rewrite (forEach_app _ _ _ _ _ Hpre). cbn [forEach].
    destruct (isHeader_groups _ Hh) as (fname & ps & H1 & H2).
    rewrite (scanLine_headerGroup _ _ _ _ Hout H1 H2). cbn [bind].
    rewrite scanLines_body by (try assumption; reflexivity).
    reflexivity.
Qed.

Lemma unterminated_function_dropped_witness :
  let document := documentOf ["FN foo(a)"; " INT x"] in
  split 10 (getText document) = [] ++ str "FN foo(a)" :: [str " INT x"] /\
  forEach scanLine [] scanStart = Ok scanStart /\
  isInFunction scanStart = false /\
  isHeader (str "FN foo(a)") = true /\
  Forall (fun l => isEndFn l = false) [str " INT x"] /\
  extractFunctionDeclarations document = Ok (functionDeclarations scanStart).
Proof.
  cbv zeta.
  assert (Hs : split 10 (getText (documentOf ["FN foo(a)"; " INT x"]))
               = [] ++ str "FN foo(a)" :: [str " INT x"])
    by (vm_compute; reflexivity).
  assert (Hh : isHeader (str "FN foo(a)") = true) by (vm_compute; reflexivity).
  assert (Hb : Forall (fun l => isEndFn l = false) [str " INT x"])
    by (repeat constructor).
  split; [exact Hs|]. split; [reflexivity|]. split; [reflexivity|].
  split; [exact Hh|]. split; [exact Hb|].
  exact (proj2 unterminated_function_dropped _ _ _ _ _ Hs eq_refl eq_refl Hh Hb).
Defined.

(** C7. When the document of a completion request is in the store, the
    handler returns, for any cursor position, first the fixed items (the
    keywords BEGIN, END, IF, ELSE, WHILE, FN, STRING, CHAR, INT, FLOAT,
    BOOL, the quoted TRUE and FALSE, RETURN, then the builtin function
    scanString), then one Variable item per extracted variable, with its
    type as detail, in extraction order, then one Function item per
    extracted function in extraction order. *)
Theorem completion_items_order :
  forall sv target position document,
    documents sv !! target = Some document ->
    exists variableDeclarations functionDeclarations,
      extractVariableDeclarations document = Ok variableDeclarations /\
      extractFunctionDeclarations document = Ok functionDeclarations /\
      onCompletion sv target position
      = Ok (map (fun s => mkItem (str s) KeywordKind None)
              ["BEGIN"; "END"; "IF"; "ELSE"; "WHILE"; "FN"; "STRING";
               "CHAR"; "INT"; "FLOAT"; "BOOL"]
            ++ [mkItem (34 :: str "TRUE" ++ [34]) KeywordKind None;
                mkItem (34 :: str "FALSE" ++ [34]) KeywordKind None;
                mkItem (str "RETURN") KeywordKind None;
                mkItem (str "scanString") FunctionKind None]
            ++ map (fun v => mkItem (var_name v) VariableKind
                               (Some (containerName v)))
                 variableDeclarations
            ++ map (fun f => mkItem (name f) FunctionKind None)
                 functionDeclarations).
Proof.
  intros sv target position document Hdoc.
  destruct (computeCompletions_total document) as (vs & fs & Hv & Hf & Hc).
  exists vs, fs. split; [assumption|]. split; [assumption|].
  unfold onCompletion. rewrite Hdoc, Hc. reflexivity.
Qed.

Lemma completion_items_order_witness :
  let document := documentOf ["INT count"; "FN foo(a)"; "END FN"] in
  let sv := mkServer false false false defaultSettings ∅
              {[ uri document := document ]} in
  documents sv !! uri document = Some document /\
  exists variableDeclarations functionDeclarations,
    extractVariableDeclarations document = Ok variableDeclarations /\
    extractFunctionDeclarations document = Ok functionDeclarations /\
    onCompletion sv (uri document) (mkPosition 0 0)
    = Ok (map (fun s => mkItem (str s) KeywordKind None)
            ["BEGIN"; "END"; "IF"; "ELSE"; "WHILE"; "FN"; "STRING";
             "CHAR"; "INT"; "FLOAT"; "BOOL"]
          ++ [mkItem (34 :: str "TRUE" ++ [34]) KeywordKind None;
              mkItem (34 :: str "FALSE" ++ [34]) KeywordKind None;
              mkItem (str "RETURN") KeywordKind None;
              mkItem (str "scanString") FunctionKind None]
          ++ map (fun v => mkItem (var_name v) VariableKind
                             (Some (containerName v)))
               variableDeclarations
          ++ map (fun f => mkItem (name f) FunctionKind None)
               functionDeclarations).
Proof.
  cbv zeta.
  match goal with
  | |- ?A /\ _ => assert (Hdoc : A) by apply lookup_singleton_eq
  end.
  split; [exact Hdoc|].
  exact (completion_items_order _ _ (mkPosition 0 0) _ Hdoc).
Defined.

(** C8. A second diagnostics request for the same document, with the same
    client configuration, resolves the same settings, runs the validation
    loop to the same result, returns the same report and leaves the server
    state as the first left it; and a completion request returns the same
    items before and after a diagnostics request, at any position: the
    only state a request writes is the settings cache, which holds the
    value the next request would resolve. The one RegExp object that
    outlives a line, that of the variable extractor, is back at
    [lastIndex] 0 when the lines are done. *)
Theorem handlers_repeatable :
  forall getConfiguration sv target position,
    let first := onDiagnostics getConfiguration sv target in
    let second := onDiagnostics getConfiguration (snd first) target in
    second = first /\
    onCompletion (snd first) target position
      = onCompletion sv target position /\
    forall document,
      documents sv !! target = Some document ->
      let s1 := getDocumentSettings getConfiguration sv (uri document) in
      let s2 := getDocumentSettings getConfiguration (snd s1) (uri document) in
      fst s2 = fst s1 /\
      validateWith (snd s2) (fst s2) document
        = validateWith (snd s1) (fst s1) document /\
      exists decls,
        forEach variableLine (split 10 (getText document)) ([], paramRegex)
        = Ok (decls, paramRegex).
Proof.
  intros getConfiguration sv target position. cbv zeta.
  assert (Hdocs : documents (snd (onDiagnostics getConfiguration sv target))
                  = documents sv).
  { unfold onDiagnostics, validateTextDocument.
    destruct (documents sv !! target) as [document|]; [|reflexivity].
    pose proof (getDocumentSettings_documents getConfiguration sv
                  (uri document)) as H.
    destruct (getDocumentSettings getConfiguration sv (uri document)).
    exact H. }
  split; [|split].
  - unfold onDiagnostics at 1. rewrite Hdocs.
    unfold onDiagnostics, validateTextDocument.
    destruct (documents sv !! target) as [document|]; [|reflexivity].
    pose proof (getDocumentSettings_again getConfiguration sv (uri document))
      as H. cbv zeta in H.
    destruct (getDocumentSettings getConfiguration sv (uri document))
      as [s1 sv1]. cbn [fst snd] in *. rewrite H. reflexivity.
  - unfold onCompletion. rewrite Hdocs. reflexivity.
  - intros document _.
    rewrite (getDocumentSettings_again getConfiguration sv (uri document)).
    split; [reflexivity|]. split; [reflexivity|].
    destruct (variableLines_total (split 10 (getText document)) [])
      as (more & H & _).
    exists more. exact H.
Qed.

Lemma handlers_repeatable_witness :
  let document := documentOf ["ABC def GHI"] in
  let sv := mkServer true false false defaultSettings ∅
              {[ uri document := document ]} in
  let getConfiguration := fun _ : jsstring => mkSettings 1 in
  documents sv !! uri document = Some document /\
  fst (getDocumentSettings getConfiguration
         (snd (getDocumentSettings getConfiguration sv (uri document)))
         (uri document))
  = fst (getDocumentSettings getConfiguration sv (uri document)).
Proof.
  cbv zeta.
  match goal with
  | |- ?A /\ _ => assert (Hdoc : A) by apply lookup_singleton_eq
  end.
  split; [exact Hdoc|].
  exact (proj1 (proj2 (proj2 (handlers_repeatable
                                (fun _ => mkSettings 1) _ _ (mkPosition 0 0)))
                  _ Hdoc)).
Defined.

(** C9. A diagnostics request for a URI that is not in the document store
    returns the full report with no items, and leaves the state; and no
    request raises on any input: the diagnostics handler, the completion
    handler and both extractors return a value for every state, target and
    document. *)
Theorem unknown_document_empty_report :
  (forall getConfiguration sv target,
     documents sv !! target = None ->
     onDiagnostics getConfiguration sv target = (Ok (mkReport Full []), sv)) /\
  (forall getConfiguration sv target,
     exists report,
       fst (onDiagnostics getConfiguration sv target) = Ok report) /\
  (forall sv target position,
     exists completionItems,
       onCompletion sv target position = Ok completionItems) /\
  (forall document,
     (exists decls, extractFunctionDeclarations document = Ok decls) /\
     (exists decls, extractVariableDeclarations document = Ok decls)).
Proof.
  split; [|split; [|split]].
  - intros getConfiguration sv target Hnone.
    unfold onDiagnostics. rewrite Hnone. reflexivity.
  - intros getConfiguration sv target. unfold onDiagnostics.
    destruct (documents sv !! target) as [document|]; [|eauto].
    pose proof (validateTextDocument_empty getConfiguration sv document) as H.
    destruct (validateTextDocument getConfiguration sv document) as [r sv'].
    cbn [fst] in *. rewrite H. cbn [bind]. eauto.
  - intros sv target position. unfold onCompletion.
    destruct (documents sv !! target) as [document|]; [|eauto].
    destruct (computeCompletions_total document) as (vs & fs & _ & _ & ->).
    eauto.
  - intros document. split.
    + apply extractFunctionDeclarations_total.
    + destruct (extractVariableDeclarations_total document) as (ds & H & _).
      eauto.
Qed.

Lemma unknown_document_empty_report_witness :
  documents initialServer !! str "file:///missing.cl" = None /\
  onDiagnostics (fun _ => defaultSettings) initialServer
    (str "file:///missing.cl")
  = (Ok (mkReport Full []), initialServer).
Proof.
  assert (Hnone : documents initialServer !! str "file:///missing.cl" = None)
    by apply lookup_empty.
  split; [exact Hnone|].
  exact (proj1 unknown_document_empty_report _ _ _ Hnone).
Defined.

(** C10. A function whose header has an empty parameter text, closed by an
    [END FN] line, is emitted with params that start with the empty string,
    followed by what the body lines add; so with body lines that add no
    typed parameter its params is the one-element list holding the empty
    string, not the empty list, as it is for the lines [FN foo()] and
    [END FN]. *)
Theorem empty_parameter_list_one_empty_param :
  (forall document header fname body closing,
     split 10 (getText document) = header :: body ++ [closing] ->
     headerGroup 1 header = Some fname ->
     headerGroup 2 header = Some [] ->
     Forall (fun l => isEndFn l = false) body ->
     isEndFn closing = true ->
     extractFunctionDeclarations document
       = Ok [mkFunction fname ([] :: concat (map typedParams body))] /\
     (Forall (fun l => typedParams l = []) body ->
      extractFunctionDeclarations document = Ok [mkFunction fname [[]]])) /\
  (forall u p,
     extractFunctionDeclarations
       (mkDocument u (text ["FN foo()"; "END FN"]) p)
     = Ok [mkFunction (str "foo") [str ""]]).
Proof.
  split; [|intros; vm_compute; reflexivity].
  intros document header fname body closing Hs H1 H2 Hb Hc.
  assert (He : extractFunctionDeclarations document
               = Ok [mkFunction fname ([] :: concat (map typedParams body))]).
  { unfold extractFunctionDeclarations. rewrite Hs.
    rewrite (scanLines_block scanStart header fname [] body closing)
      by (try assumption; reflexivity).
    reflexivity. }
  split; [exact He|].
  intros Hnone. rewrite He.
  replace (concat (map typedParams body)) with (@nil jsstring);
    [reflexivity|].
  clear Hs Hb He. induction body as [|l body IH]; [reflexivity|].
  inversion Hnone as [|? ? Hl Hnone']; subst.
  cbn [map concat]. rewrite Hl. apply IH. assumption.
Qed.

Lemma empty_parameter_list_one_empty_param_witness :
  let document := documentOf ["FN foo()"; "  RETURN 1"; "END FN"] in
  split 10 (getText document)
    = str "FN foo()" :: [str "  RETURN 1"] ++ [str "END FN"] /\
  headerGroup 1 (str "FN foo()") = Some (str "foo") /\
  headerGroup 2 (str "FN foo()") = Some [] /\
  Forall (fun l => isEndFn l = false) [str "  RETURN 1"] /\
  isEndFn (str "END FN") = true /\
  Forall (fun l => typedParams l = []) [str "  RETURN 1"] /\
  extractFunctionDeclarations document = Ok [mkFunction (str "foo") [[]]].
Proof.
  cbv zeta.
  match goal with
  | |- ?A /\ ?B /\ ?C /\ ?D /\ ?E /\ ?F /\ _ =>
      assert (Hs : A) by (vm_compute; reflexivity);
      assert (H1 : B) by (vm_compute; reflexivity);
      assert (H2 : C) by (vm_compute; reflexivity);
      assert (Hb : D) by (repeat constructor);
      assert (Hc : E) by (vm_compute; reflexivity);
      assert (Hn : F) by (repeat constructor)
  end.
  split; [exact Hs|]. split; [exact H1|]. split; [exact H2|].
  split; [exact Hb|]. split; [exact Hc|]. split; [exact Hn|].
  exact (proj2 (proj1 empty_parameter_list_one_empty_param _ _ _ _ _
                  Hs H1 H2 Hb Hc) Hn).
Defined.

End Properties.

(** ** Lines and trimming *)

Section TextFacts.
Import Js Trace Server Vocabulary.

Lemma split_nonempty sep s : split sep s <> [].
Proof.
  destruct s as [|c s]; simpl; [discriminate|].
  destruct (c =? sep); [discriminate|].
  destruct (split sep s); discriminate.
Qed.

Lemma joinLines_cons c p r : joinLines ((c :: p) :: r) = c :: joinLines (p :: r).
Proof. destruct r; reflexivity. Qed.

Lemma joinLines_split s : joinLines (split 10 s) = s.
Proof.
  induction s as [|c s IH]; [reflexivity|].
  cbn [split]. destruct (N.eqb_spec c 10) as [->|Hc].
  - destruct (split 10 s) as [|p r] eqn:Hs; [destruct (split_nonempty _ _ Hs)|].
    change (joinLines ([] :: p :: r)) with (10 :: joinLines (p :: r)).
    rewrite IH. reflexivity.
  - destruct (split 10 s) as [|p r] eqn:Hs; [destruct (split_nonempty _ _ Hs)|].
    cbv iota. rewrite joinLines_cons. f_equal. exact IH.
Qed.

Lemma split_no_sep sep s :
  Forall (Forall (fun c => c <> sep)) (split sep s).
Proof.
  induction s as [|c s IH]; cbn [split].
  - repeat constructor.
  - destruct (N.eqb_spec c sep) as [->|Hc].
    + constructor; [constructor|assumption].
    + destruct (split sep s) as [|p r]; [repeat constructor; assumption|].
      inversion IH; subst. constructor; [constructor|]; assumption.
Qed.

Lemma split_app sep a b :
  split sep (a ++ sep :: b) = split sep a ++ split sep b.
Proof.
  induction a as [|c a IH]; cbn [app split].
  - rewrite N.eqb_refl. reflexivity.
  - destruct (c =? sep); [rewrite IH; reflexivity|].
    rewrite IH.
    destruct (split sep a) as [|p r] eqn:Hs; [destruct (split_nonempty _ _ Hs)|].
    reflexivity.
Qed.

Lemma split_none sep s :
  Forall (fun c => c <> sep) s -> split sep s = [s].
Proof.
  induction 1 as [|c s Hc Hs IH]; cbn [split]; [reflexivity|].
  destruct (N.eqb_spec c sep); [contradiction|]. rewrite IH. reflexivity.
Qed.

Lemma split_length s :
  length (split 10 s) = S (length (List.filter (N.eqb 10) s)).
Proof.
  induction s as [|c s IH]; [reflexivity|].
  cbn [split List.filter]. rewrite (N.eqb_sym 10 c).
  destruct (c =? 10); cbn [length]; [rewrite IH; reflexivity|].
  destruct (split 10 s) as [|p r] eqn:Hs; [destruct (split_nonempty _ _ Hs)|].
  exact IH.
Qed.

Lemma trimStart_spec s :
  exists a, s = a ++ trimStart s /\ Forall (fun c => isWhiteSpace c = true) a /\
    startsWithSpace (trimStart s) = false.
Proof.
  induction s as [|c s IH]; cbn [trimStart].
  - exists []. repeat split; constructor.
  - destruct (isWhiteSpace c) eqn:Hc.
    + destruct IH as (a & Hs & Ha & Hh). exists (c :: a).
      split; [simpl; congruence|]. split; [constructor; assumption|assumption].
    + exists []. split; [reflexivity|]. split; [constructor|exact Hc].
Qed.

Lemma trimStart_id s : startsWithSpace s = false -> trimStart s = s.
Proof. destruct s as [|c s]; simpl; [reflexivity|]. intros ->. reflexivity. Qed.

Lemma trim_spec s :
  exists a b, s = a ++ trim s ++ b /\
    Forall (fun c => isWhiteSpace c = true) a /\
    Forall (fun c => isWhiteSpace c = true) b /\
    isTrimmed (trim s) = true.
Proof.
  destruct (trimStart_spec s) as (a & Hs & Ha & Hh).
  destruct (trimStart_spec (rev (trimStart s))) as (b & Hr & Hb & Hl).
  exists a, (rev b). unfold trim, trimEnd.
  assert (Ht : trimStart s = rev (trimStart (rev (trimStart s))) ++ rev b).
  { rewrite <- rev_app_distr, <- Hr, rev_involutive. reflexivity. }
  split; [rewrite <- Ht; exact Hs|]. split; [assumption|].
  split; [apply Forall_rev; assumption|].
  unfold isTrimmed. rewrite rev_involutive, Hl.
  rewrite andb_true_r. apply negb_true_iff.
  destruct (rev (trimStart (rev (trimStart s)))) as [|c r] eqn:He;
    [reflexivity|].
  rewrite Ht in Hh. exact Hh.
Qed.

Lemma trim_id s : isTrimmed s = true -> trim s = s.
Proof.
  unfold isTrimmed, trim, trimEnd. intros H.
  apply andb_true_iff in H. destruct H as [H1 H2].
  apply negb_true_iff in H1, H2.
  rewrite (trimStart_id s H1), (trimStart_id _ H2). apply rev_involutive.
Qed.

Lemma trim_idem s : trim (trim s) = trim s.
Proof.
  destruct (trim_spec s) as (a & b & _ & _ & _ & H). apply trim_id. exact H.
Qed.

End TextFacts.

(** ** Character classes and identifiers *)

Section ShapeFacts.
Import Js Trace Server Vocabulary.

Ltac bools :=
  repeat rewrite ?orb_true_iff, ?andb_true_iff, ?N.leb_le, ?N.eqb_eq in *.

Lemma cs_match_sensitive cs c : cs_match false cs c = cs_mem cs c.
Proof. unfold cs_match. cbn. apply orb_false_r. Qed.

Lemma cs_match_identStart ic c : cs_match ic identStart c = cs_mem identStart c.
Proof.
  destruct ic; [|apply cs_match_sensitive].
  unfold cs_match, toUpper, toLower, isLower, isUpper, identStart.
  cbn [cs_mem andb].
  destruct (inRange 97 122 c) eqn:Hl; cbv iota; cbn [orb]; [reflexivity|].
  destruct (inRange 65 90 c) eqn:Hu; cbv iota; cbn [orb]; [reflexivity|].
  rewrite Hl, Hu. cbn [orb].
  match goal with |- ?a || (?a || ?a) = ?a => destruct a; reflexivity end.
Qed.

Lemma cs_match_identPart ic c : cs_match ic identPart c = cs_mem identPart c.
Proof.
  destruct ic; [|apply cs_match_sensitive].
  unfold cs_match, toUpper, toLower, isLower, isUpper, identPart.
  cbn [cs_mem andb].
  destruct (inRange 97 122 c) eqn:Hl; cbv iota; cbn [orb]; [reflexivity|].
  destruct (inRange 65 90 c) eqn:Hu; cbv iota; cbn [orb]; [reflexivity|].
  rewrite Hl, Hu. cbn [orb].
  match goal with |- ?a || (?a || ?a) = ?a => destruct a; reflexivity end.
Qed.

Lemma identPart_word c : cs_mem identPart c = isWordChar c.
Proof.
  unfold identPart, isWordChar. cbn [cs_mem].
  fold (isLower c) (isUpper c) (isDigit c).
  destruct (isLower c), (isUpper c), (isDigit c), (c =? 95); reflexivity.
Qed.

Lemma identStart_word c : cs_mem identStart c = true -> isWordChar c = true.
Proof.
  unfold identStart, isWordChar. cbn [cs_mem].
  fold (isLower c) (isUpper c).
  destruct (isLower c), (isUpper c), (isDigit c), (c =? 95); auto.
Qed.

(** A word character is no white space, colon, comma or parenthesis. *)
Lemma wordChar_plain c :
  isWordChar c = true ->
  isWhiteSpace c = false /\ c <> 58 /\ c <> 44 /\ c <> 40 /\ c <> 10.
Proof.
  intros H. unfold isWordChar, isUpper, isLower, isDigit, inRange in H.
  bools.
  split.
  - apply not_true_is_false. unfold isWhiteSpace. intros Hw. bools. lia.
  - lia.
Qed.

Lemma whiteSpace_plain c :
  isWhiteSpace c = true -> c <> 58 /\ c <> 44 /\ c <> 40 /\ isWordChar c = false.
Proof.
  intros H.
  assert (Hw : isWordChar c = false).
  { destruct (isWordChar c) eqn:Hc; [|reflexivity].
    apply wordChar_plain in Hc. destruct Hc as [Hc _]. congruence. }
  unfold isWhiteSpace in H. bools. repeat split; try lia. exact Hw.
Qed.

Lemma identifier_chars id :
  isIdentifier id = true ->
  id <> [] /\ Forall (fun c => isWordChar c = true) id.
Proof.
  destruct id as [|c id]; [discriminate|]. cbn [isIdentifier].
  intros H. apply andb_true_iff in H. destruct H as [Hc Hid].
  split; [discriminate|]. constructor; [apply identStart_word; assumption|].
  apply Forall_forall. intros x Hx.
  rewrite forallb_forall in Hid. rewrite <- identPart_word. apply Hid.
  apply list_elem_of_In. exact Hx.
Qed.

Lemma fwd_identifier ic x z :
  fwd ic identifier x z -> exists id, reads id x z /\ isIdentifier id = true.
Proof.
  unfold identifier. cbn [fwd].
  intros (z1 & (ch & a & Ha & Hc & ->) & (w & _ & Hall & Haw & Hbw & _)).
  cbn [before after] in *.
  exists (ch :: w). split.
  - split.
    + rewrite Ha, Haw. reflexivity.
    + rewrite Hbw. cbn [rev]. rewrite <- app_assoc. reflexivity.
  - cbn [isIdentifier]. rewrite cs_match_identStart in Hc. rewrite Hc.
    cbn [andb]. apply forallb_forall. intros c Hin.
    apply list_elem_of_In in Hin.
    rewrite Forall_forall in Hall. specialize (Hall c Hin).
    rewrite cs_match_identPart in Hall. exact Hall.
Qed.

Lemma fwd_space ic min x y :
  fwd ic (RRep min CsSpace) x y ->
  exists ws, reads ws x y /\ (min <= length ws)%nat /\
    Forall (fun c => isWhiteSpace c = true) ws /\ captures y = captures x.
Proof.
  cbn [fwd]. intros (w & Hlen & Hall & Ha & Hb & Hc).
  exists w. split; [split; assumption|]. split; [assumption|].
  split; [|assumption].
  eapply Forall_impl; [exact Hall|]. intros c H.
  unfold cs_match in H. cbn [cs_mem] in H.
  destruct (isWhiteSpace c) eqn:Hw; [reflexivity|].
  destruct ic; cbn in H; [|discriminate].
  unfold toUpper, toLower in H.
  destruct (isLower c) eqn:Hl.
  - assert (isWordChar c = true) by (unfold isWordChar; rewrite Hl; destruct (isUpper c); reflexivity).
    destruct (isUpper c) eqn:Hu.
    + unfold isLower, isUpper, inRange in *. bools. lia.
    + rewrite Hw, orb_false_r in H.
      apply whiteSpace_plain in H. destruct H as (_ & _ & _ & H).
      unfold isWordChar, isUpper, isLower, isDigit, inRange in *.
      apply not_true_iff_false in H. exfalso. apply H. bools. lia.
  - cbn in H. rewrite Hw in H. cbn in H.
    destruct (isUpper c) eqn:Hu; [|congruence].
    apply whiteSpace_plain in H. destruct H as (_ & _ & _ & H).
    unfold isWordChar, isUpper, isLower, isDigit, inRange in *.
    apply not_true_iff_false in H. exfalso. apply H. bools. lia.
Qed.

End ShapeFacts.

(** ** The shape of the matches *)

Section ShapeFacts2.
Import Js Trace Server Vocabulary.

Lemma reads_captures_free w x y caps :
  reads w x y -> reads w x (mkState (before y) (after y) caps).
Proof. intros H. exact H. Qed.

(** The state a match ends in, when what was read ends in a word
    character and a word boundary follows. *)
Lemma boundary_after_word w x y :
  reads w x y -> w <> [] -> Forall (fun c => isWordChar c = true) w ->
  isWordBoundary y = true -> startsWithWord (after y) = false.
Proof.
  intros [_ Hb] Hne Hall Hbd. unfold isWordBoundary in Hbd. rewrite Hb in Hbd.
  destruct (rev w) as [|c r] eqn:Hr.
  - apply (f_equal (@rev char)) in Hr. rewrite rev_involutive in Hr.
    contradiction.
  - cbn [app] in Hbd.
    assert (Hc : isWordChar c = true).
    { rewrite Forall_forall in Hall. apply Hall.
      apply list_elem_of_In, in_rev. rewrite Hr. left. reflexivity. }
    rewrite Hc in Hbd. unfold startsWithWord.
    destruct (after y) as [|d a]; [reflexivity|].
    destruct (isWordChar d); [discriminate|reflexivity].
Qed.

Lemma boundary_before_word w x y :
  reads w x y -> w <> [] -> Forall (fun c => isWordChar c = true) w ->
  isWordBoundary x = true -> startsWithWord (before x) = false.
Proof.
  intros [Ha _] Hne Hall Hbd. unfold isWordBoundary in Hbd. rewrite Ha in Hbd.
  destruct w as [|c w]; [contradiction|]. cbn [app] in Hbd.
  inversion Hall as [|? ? Hc _]; subst. rewrite Hc in Hbd.
  unfold startsWithWord. destruct (before x) as [|d b]; [reflexivity|].
  destruct (isWordChar d); [discriminate|reflexivity].
Qed.

(** A match of the variable pattern, in full. *)
Lemma paramRegex_shape x y :
  fwd false (pattern paramRegex) x y ->
  exists ty ws id,
    In ty variableTypes /\ reads (ty ++ ws ++ id) x y /\
    captures y = <[2%nat := id]> (<[1%nat := ty]> (captures x)) /\
    ws <> [] /\ Forall (fun c => isWhiteSpace c = true) ws /\
    isIdentifier id = true /\ startsWithWord (after y) = false.
Proof.
  intros H. cbn [pattern paramRegex terms] in H.
  destruct H as (z1 & [-> Hnb] & z2 & H2 & z3 & H3 & z4 & H4 & z5 & H5 & H6).
  cbn [fwd] in H5, H6. destruct H5 as [-> Hbd]. subst y.
  apply fwd_group in H2; [|reflexivity].
  destruct H2 as (ty & z & Hty & Hrz & Hr2 & Hc2).
  apply fwd_variableTypes in Hty. destruct Hty as (ty' & Hin & Hr).
  rewrite (reads_inj _ _ _ _ Hr Hrz) in Hin. clear ty' Hr.
  apply fwd_space in H3. destruct H3 as (ws & Hr3 & Hlen & Hws & Hc3).
  apply fwd_group in H4; [|reflexivity].
  destruct H4 as (id & z' & Hid & Hrz' & Hr4 & Hc4).
  apply fwd_identifier in Hid. destruct Hid as (id' & Hrid & Hident).
  rewrite (reads_inj _ _ _ _ Hrid Hrz') in Hident. clear id' Hrid.
  exists ty, ws, id.
  split; [assumption|].
  split; [eauto using reads_app|].
  split; [rewrite Hc4, Hc3, Hc2; reflexivity|].
  split; [destruct ws; [simpl in Hlen; lia|discriminate]|].
  split; [assumption|]. split; [assumption|].
  destruct (identifier_chars _ Hident) as [Hne Hall].
  exact (boundary_after_word _ _ _ Hr4 Hne Hall Hbd).
Qed.

Lemma canonicalize_plain c d :
  isLower d = false -> isUpper d = false ->
  canonicalize true c = canonicalize true d -> c = d.
Proof.
  unfold canonicalize, toUpper. intros Hl Hu. rewrite Hl.
  destruct (isLower c) eqn:Hc; [|auto].
  intros <-. unfold isLower, isUpper, inRange in *.
  apply andb_true_iff in Hc. destruct Hc as [H1 H2].
  apply N.leb_le in H1, H2.
  apply andb_false_iff in Hu.
  destruct Hu as [Hu|Hu]; apply N.leb_gt in Hu; lia.
Qed.

(** A match of the header pattern, in full: the name is an identifier, the
    parameter text has no line terminator, and what was read has an
    opening parenthesis. *)
Lemma functionStart_shape x y :
  fwd true (pattern functionStartPattern) x y ->
  exists fname paramsString w,
    captures y = <[2%nat := paramsString]> (<[1%nat := fname]> (captures x)) /\
    isIdentifier fname = true /\
    Forall (fun c => isLineTerminator c = false) paramsString /\
    reads w x y /\ In 40 w.
Proof.
  intros H. cbn [pattern functionStartPattern terms] in H.
  destruct H as (z1 & [-> _] & z2 & H2 & z3 & H3 & z4 & H4 & z5 & H5 &
                 z6 & H6 & z7 & H7 & z8 & H8 & z9 & H9 & z10 & H10 & H11).
  cbn [fwd] in H11. subst y.
  pose proof H2 as C2; apply fwd_no_groups in C2; [|reflexivity].
  pose proof H3 as C3; apply fwd_no_groups in C3; [|reflexivity].
  pose proof H4 as C4; apply fwd_no_groups in C4; [|reflexivity].
  pose proof H5 as C5; apply fwd_no_groups in C5; [|reflexivity].
  pose proof H7 as C7; apply fwd_no_groups in C7; [|reflexivity].
  pose proof H8 as C8; apply fwd_no_groups in C8; [|reflexivity].
  pose proof H10 as C10; apply fwd_no_groups in C10; [|reflexivity].
  apply fwd_reads in H2, H3, H4, H5, H7, H10.
  destruct H2 as (w2 & R2), H3 as (w3 & R3), H4 as (w4 & R4),
    H5 as (w5 & R5), H7 as (w7 & R7), H10 as (w10 & R10).
  destruct H8 as (ch & a & Ha & Hch & ->).
  apply canonicalize_plain in Hch; [|reflexivity|reflexivity]. subst ch.
  assert (R8 : reads [40] z7 (mkState (40 :: before z7) a (captures z7)))
    by (split; [exact Ha|reflexivity]).
  apply fwd_group in H6; [|reflexivity].
  destruct H6 as (fname & z & Hid & Hrz & R6 & Hc6).
  apply fwd_identifier in Hid. destruct Hid as (id' & Hrid & Hident).
  rewrite (reads_inj _ _ _ _ Hrid Hrz) in Hident. clear id' Hrid.
  pose proof H9 as H9'.
  apply fwd_group in H9; [|reflexivity].
  destruct H9 as (ps & z' & Hdot & Hrz' & R9 & Hc9).
  cbn [fwd] in Hdot. destruct Hdot as (w & _ & Hall & Haw & Hbw & _).
  assert (ps = w) by (eapply reads_inj; [exact Hrz'|split; assumption]).
  subst w.
  exists fname, ps, (w2 ++ w3 ++ w4 ++ w5 ++ fname ++ w7 ++ [40] ++ ps ++ w10).
  split.
  { rewrite C10, Hc9. cbn [captures]. rewrite C7, Hc6, C5, C4, C3, C2.
    reflexivity. }
  split; [assumption|].
  split.
  { eapply Forall_impl; [exact Hall|]. intros c Hc.
    unfold cs_match in Hc. cbn [cs_mem andb] in Hc.
    destruct (isLineTerminator c) eqn:Hlt; [|reflexivity].
    cbn [negb orb] in Hc. unfold toUpper, toLower in Hc.
    assert (Hnl : isLower c = false /\ isUpper c = false).
    { unfold isLineTerminator, isLower, isUpper, inRange in *.
      rewrite !orb_true_iff, !N.eqb_eq in Hlt.
      split; apply andb_false_iff;
        destruct (N.leb_spec 97 c), (N.leb_spec 65 c); auto;
        right; apply N.leb_gt; lia. }
    destruct Hnl as [Hl Hu]. rewrite Hl, Hu, Hlt in Hc. discriminate. }
  split.
  { repeat (eapply reads_app; [eassumption|]). exact R10. }
  rewrite !in_app_iff. do 6 right. left. left. reflexivity.
Qed.

Lemma fwd_paramTypes x y :
  fwd false (alts (lit (str "STRING"))
               [lit (str "INT"); lit (str "FLOAT"); lit (str "CHAR");
                lit (str "BOOL")]) x y ->
  exists ty, In ty paramTypes /\ reads ty x y.
Proof.
  intros H. cbn [alts fwd] in H.
  destruct H as [H|[H|[H|[H|H]]]]; apply fwd_lit in H; eexists;
    (split; [|exact H]); unfold paramTypes; simpl; auto 10.
Qed.

(** A match of the pattern of the body lines, in full. *)
Lemma typedParam_shape x y :
  fwd false (pattern typedParamPattern) x y ->
  exists id ws1 ws2 ty,
    reads (id ++ ws1 ++ 58 :: ws2 ++ ty) x y /\
    isIdentifier id = true /\
    Forall (fun c => isWhiteSpace c = true) ws1 /\
    Forall (fun c => isWhiteSpace c = true) ws2 /\
    In ty paramTypes.
Proof.
  intros H. cbn [pattern typedParamPattern terms] in H.
  destruct H as (z1 & [-> _] & z2 & H2 & z3 & H3 & z4 & H4 & z5 & H5 &
                 z6 & H6 & H7).
  cbn [fwd] in H7. subst y.
  apply fwd_group in H2; [|reflexivity].
  destruct H2 as (id & z & Hid & Hrz & R2 & _).
  apply fwd_identifier in Hid. destruct Hid as (id' & Hrid & Hident).
  rewrite (reads_inj _ _ _ _ Hrid Hrz) in Hident. clear id' Hrid.
  apply fwd_space in H3. destruct H3 as (ws1 & R3 & _ & Hws1 & _).
  destruct H4 as (ch & a & Ha & Hch & ->). cbn in Hch. subst ch.
  assert (R4 : reads [58] z3 (mkState (58 :: before z3) a (captures z3)))
    by (split; [exact Ha|reflexivity]).
  apply fwd_space in H5. destruct H5 as (ws2 & R5 & _ & Hws2 & _).
  apply fwd_group in H6; [|reflexivity].
  destruct H6 as (ty & z' & Hty & Hrz' & R6 & _).
  apply fwd_paramTypes in Hty. destruct Hty as (ty' & Hin & Hr).
  rewrite (reads_inj _ _ _ _ Hr Hrz') in Hin. clear ty' Hr.
  exists id, ws1, ws2, ty.
  split.
  { eapply reads_app; [exact R2|]. eapply reads_app; [exact R3|].
    change (58 :: ws2 ++ ty) with ([58] ++ ws2 ++ ty).
    eapply reads_app; [exact R4|]. eapply reads_app; [exact R5|exact R6]. }
  auto.
Qed.

(** A match of the validator's pattern, in full. *)
Lemma allCaps_shape x y w :
  fwd false (pattern allCapsPattern) x y -> reads w x y ->
  (2 <= length w)%nat /\ Forall (fun c => isUpper c = true) w /\
  startsWithWord (before x) = false /\ startsWithWord (after y) = false.
Proof.
  intros H Hw. destruct (allCaps_match _ _ _ H Hw) as [Hlen Hup].
  cbn [pattern allCapsPattern terms fwd] in H.
  destruct H as (z1 & [-> Hb1] & z2 & (w' & _ & _ & Ha & Hb & _) &
                 z3 & [-> Hb2] & ->).
  assert (Hne : w <> []) by (destruct w; [simpl in Hlen; lia|discriminate]).
  assert (Hword : Forall (fun c => isWordChar c = true) w).
  { eapply Forall_impl; [exact Hup|]. intros c Hc. unfold isWordChar.
    rewrite Hc. reflexivity. }
  split; [assumption|]. split; [assumption|].
  split; [exact (boundary_before_word _ _ _ Hw Hne Hword Hb1)|].
  exact (boundary_after_word _ _ _ Hw Hne Hword Hb2).
Qed.

(** What [exec] found, laid out in the text. *)
Lemma exec_layout R s m R' :
  exec R s = (Some m, R') ->
  exists x y,
    fwd (ignoreCase R) (pattern R) x y /\ reads (matched m) x y /\
    s = rev (before x) ++ matched m ++ after y /\
    index m = length (before x) /\ captures x = ∅ /\ groups m = captures y /\
    ((if global R then lastIndex R else O) <= index m)%nat /\
    R' = (if global R
          then setLastIndex (index m + length (matched m)) R else R).
Proof.
  intros H. apply exec_some in H.
  destruct H as (x & y & Hf & Hr & Hs & Hc & Hi & Hg & Hlo & _ & HR).
  exists x, y. repeat split; try assumption; try apply Hr.
  rewrite <- Hs. destruct Hr as [Ha _]. rewrite Ha. reflexivity.
Qed.

Lemma matchesFrom_Forall (P : MatchArray -> Prop) R0 s :
  global R0 = true ->
  (forall i m R', exec (setLastIndex i R0) s = (Some m, R') -> P m) ->
  forall fuel i, Forall P (matchesFrom fuel (setLastIndex i R0) s).
Proof.
  intros Hg HP. induction fuel as [|fuel IH]; intros i; cbn [matchesFrom];
    [constructor|].
  destruct (exec (setLastIndex i R0) s) as [[m|] R'] eqn:He; [|constructor].
  constructor; [eapply HP; eassumption|].
  apply exec_some in He.
  destruct He as (_ & _ & _ & _ & _ & _ & _ & _ & _ & _ & ->).
  change (global (setLastIndex i R0)) with (global R0). rewrite Hg.
  apply IH.
Qed.

Lemma matchLoop_Forall (P : jsstring -> Prop) R0 s :
  global R0 = true ->
  (forall i m R', exec (setLastIndex i R0) s = (Some m, R') -> P (matched m)) ->
  forall fuel i acc ms,
    Forall P acc ->
    matchLoop fuel (setLastIndex i R0) s acc = Ok ms -> Forall P ms.
Proof.
  intros Hg HP. induction fuel as [|fuel IH]; intros i acc ms Hacc H;
    cbn [matchLoop] in H; [discriminate|].
  destruct (exec (setLastIndex i R0) s) as [[m|] R'] eqn:He.
  - pose proof (HP _ _ _ He) as Hm.
    apply exec_some in He.
    destruct He as (_ & _ & _ & _ & _ & _ & _ & _ & _ & _ & ->).
    change (global (setLastIndex i R0)) with (global R0) in H.
    rewrite Hg in H.
    destruct (matched m) as [|c mt] eqn:Hmt;
      (eapply IH; [|exact H]; apply Forall_app; split;
       [assumption|constructor; [assumption|constructor]]).
  - inversion H; subst. assumption.
Qed.

End ShapeFacts2.

(** ** The variable extractor, line by line *)

Section VariableFacts.
Import Js Trace Server Vocabulary.

Lemma variableLoop_matches fuel : forall line decls i,
  (S (length line) - i <= fuel)%nat -> (1 <= fuel)%nat ->
  variableLoop fuel line (decls, setLastIndex i paramRegex)
  = Ok (decls ++ map variableOf
                   (matchesFrom fuel (setLastIndex i paramRegex) line),
        paramRegex).
Proof.
  induction fuel as [|fuel IH]; intros line decls i Hf H1; [lia|].
  cbn [variableLoop matchesFrom fst snd].
  pose proof (paramRegex_exec line i) as He.
  destruct (exec (setLastIndex i paramRegex) line) as [[m|] R'].
  - destruct He as (ty & id & j & Hin & H1' & H2' & _ & Hj & ->).
    assert (Hv : variableOf m = mkVariable id ty)
      by (unfold variableOf, groupOf; rewrite H1', H2'; reflexivity).
    unfold capture. rewrite H1', H2'. cbn [bind].
    rewrite IH by lia. cbn [map]. rewrite Hv, <- app_assoc. reflexivity.
  - subst R'. rewrite app_nil_r. reflexivity.
Qed.

Lemma variableLines_matches lines : forall decls,
  forEach variableLine lines (decls, paramRegex)
  = Ok (decls ++ concat (map lineVariables lines), paramRegex).
Proof.
  induction lines as [|line lines IH]; intros decls; cbn [forEach map concat].
  - rewrite app_nil_r. reflexivity.
  - pose proof (variableLoop_matches (S (length line)) line decls 0
                  ltac:(lia) ltac:(lia)) as H.
    change (setLastIndex 0 paramRegex) with paramRegex in H.
    unfold variableLine at 1. rewrite H. fold (lineVariables line).
    cbn [bind]. rewrite IH, <- app_assoc. reflexivity.
Qed.

Lemma extractVariableDeclarations_lines document :
  extractVariableDeclarations document
  = Ok (concat (map lineVariables (split 10 (getText document)))).
Proof.
  unfold extractVariableDeclarations. rewrite variableLines_matches.
  reflexivity.
Qed.

(** Where a declaration of one line comes from. *)
Lemma lineVariables_occurrence line :
  Forall (fun v =>
            exists pre ws post,
              line = pre ++ containerName v ++ ws ++ var_name v ++ post /\
              In (containerName v) variableTypes /\
              ws <> [] /\ Forall (fun c => isWhiteSpace c = true) ws /\
              isIdentifier (var_name v) = true /\
              startsWithWord post = false)
    (lineVariables line).
Proof.
  unfold lineVariables. apply Forall_map.
  apply (matchesFrom_Forall _ paramRegex line eq_refl).
  intros i m R' He. apply exec_layout in He.
  destruct He as (x & y & Hf & Hr & Hs & _ & Hc & Hg & _).
  apply paramRegex_shape in Hf.
  destruct Hf as (ty & ws & id & Hin & Hr' & Hcap & Hne & Hws & Hid & Hend).
  pose proof (reads_inj _ _ _ _ Hr Hr') as Hm.
  unfold variableOf, groupOf. rewrite Hg, Hcap, Hc.
  rewrite lookup_insert_eq, lookup_insert_ne, lookup_insert_eq by discriminate.
  cbn [var_name containerName].
  exists (rev (before x)), ws, (after y).
  split; [rewrite Hs, Hm, <- !app_assoc; reflexivity|].
  auto 10.
Qed.

End VariableFacts.

(** ** The entries of the body lines *)

Section FunctionFacts.
Import Js Trace Server Vocabulary.

Lemma trimStart_spaces a s :
  Forall (fun c => isWhiteSpace c = true) a -> trimStart (a ++ s) = trimStart s.
Proof.
  induction 1 as [|c a Hc _ IH]; [reflexivity|].
  cbn [app trimStart]. rewrite Hc. exact IH.
Qed.

Lemma isTrimmed_word t :
  t <> [] -> Forall (fun c => isWordChar c = true) t -> isTrimmed t = true.
Proof.
  intros Hne Hall. unfold isTrimmed.
  assert (Hs : forall u, u <> [] -> Forall (fun c => isWordChar c = true) u ->
                 startsWithSpace u = false).
  { intros [|c u] Hu Hw; [contradiction|]. inversion Hw; subst.
    cbn. apply wordChar_plain. assumption. }
  rewrite (Hs t Hne Hall), (Hs (rev t)); [reflexivity| |apply Forall_rev; assumption].
  intros Hr. apply (f_equal (@rev char)) in Hr. rewrite rev_involutive in Hr.
  contradiction.
Qed.

(** [trim] takes the white space off both ends of a text that has none at
    its own ends. *)
Lemma trim_strip a t b :
  Forall (fun c => isWhiteSpace c = true) a ->
  Forall (fun c => isWhiteSpace c = true) b ->
  t <> [] -> isTrimmed t = true ->
  trim (a ++ t ++ b) = t.
Proof.
  intros Ha Hb Hne Ht. unfold isTrimmed in Ht.
  apply andb_true_iff in Ht. destruct Ht as [H1 H2].
  apply negb_true_iff in H1, H2.
  unfold trim, trimEnd. rewrite (trimStart_spaces a _ Ha).
  assert (Hst : trimStart (t ++ b) = t ++ b).
  { apply trimStart_id. destruct t; [contradiction|exact H1]. }
  rewrite Hst, rev_app_distr, (trimStart_spaces (rev b)) by (apply Forall_rev; assumption).
  rewrite (trimStart_id _ H2). apply rev_involutive.
Qed.

Lemma split_two sep a b :
  Forall (fun c => c <> sep) a -> Forall (fun c => c <> sep) b ->
  split sep (a ++ sep :: b) = [a; b].
Proof.
  intros Ha Hb. rewrite split_app, (split_none _ _ Ha), (split_none _ _ Hb).
  reflexivity.
Qed.

Lemma paramTypes_word ty :
  In ty paramTypes -> ty <> [] /\ Forall (fun c => isWordChar c = true) ty.
Proof.
  unfold paramTypes. simpl.
  intros [<-|[<-|[<-|[<-|[<-|[]]]]]]; (split; [discriminate|]);
    repeat constructor.
Qed.

(** A match of the body pattern becomes the entry [TYPE name]. *)
Lemma pushTypedParam_shape acc id ws1 ws2 ty :
  isIdentifier id = true ->
  Forall (fun c => isWhiteSpace c = true) ws1 ->
  Forall (fun c => isWhiteSpace c = true) ws2 ->
  In ty paramTypes ->
  pushTypedParam acc (id ++ ws1 ++ 58 :: ws2 ++ ty) = acc ++ [ty ++ 32 :: id].
Proof.
  intros Hid H1 H2 Hty.
  destruct (identifier_chars _ Hid) as [Hne Hw].
  destruct (paramTypes_word _ Hty) as [Hne' Hw'].
  assert (Hnc : forall u, Forall (fun c => isWordChar c = true) u ->
                  Forall (fun c => c <> 58) u).
  { intros u Hu. eapply Forall_impl; [exact Hu|]. intros c Hc.
    apply wordChar_plain in Hc. tauto. }
  assert (Hns : forall u, Forall (fun c => isWhiteSpace c = true) u ->
                  Forall (fun c => c <> 58) u).
  { intros u Hu. eapply Forall_impl; [exact Hu|]. intros c Hc.
    apply whiteSpace_plain in Hc. tauto. }
  unfold pushTypedParam.
  replace (id ++ ws1 ++ 58 :: ws2 ++ ty) with ((id ++ ws1) ++ 58 :: ws2 ++ ty)
    by (rewrite <- app_assoc; reflexivity).
  rewrite split_two by (apply Forall_app; auto).
  replace (ws2 ++ ty) with (ws2 ++ ty ++ []) by (rewrite app_nil_r; reflexivity).
  rewrite (trim_strip ws2 ty []); auto using isTrimmed_word.
  change (id ++ ws1) with ([] ++ id ++ ws1).
  rewrite (trim_strip [] id ws1); auto using isTrimmed_word.
Qed.

(** The entries a body line adds, and where they come from. *)
Lemma typedParams_entries line :
  Forall (fun e =>
            exists pre id ws1 ws2 ty post,
              line = pre ++ id ++ ws1 ++ 58 :: ws2 ++ ty ++ post /\
              isIdentifier id = true /\
              Forall (fun c => isWhiteSpace c = true) ws1 /\
              Forall (fun c => isWhiteSpace c = true) ws2 /\
              In ty paramTypes /\ e = ty ++ 32 :: id)
    (typedParams line).
Proof.
  unfold typedParams, matchGlobal.
  match goal with
  | |- context [matchLoop ?a ?b ?c ?d] =>
      destruct (matchLoop a b c d) as [ms| |] eqn:Hm
  end; cbn [bind]; try constructor.
  pose (P := fun mt : jsstring =>
               exists pre id ws1 ws2 ty post,
                 line = pre ++ mt ++ post /\
                 mt = id ++ ws1 ++ 58 :: ws2 ++ ty /\
                 isIdentifier id = true /\
                 Forall (fun c => isWhiteSpace c = true) ws1 /\
                 Forall (fun c => isWhiteSpace c = true) ws2 /\
                 In ty paramTypes).
  assert (HP : Forall P ms).
  { eapply (matchLoop_Forall P typedParamPattern line eq_refl);
      [|constructor|exact Hm].
    intros i m R' He. apply exec_layout in He.
    destruct He as (x & y & Hf & Hr & Hs & _).
    apply typedParam_shape in Hf.
    destruct Hf as (id & ws1 & ws2 & ty & Hr' & Hid & H1 & H2 & Hty).
    exists (rev (before x)), id, ws1, ws2, ty, (after y).
    split; [exact Hs|].
    split; [exact (reads_inj _ _ _ _ Hr Hr')|]. auto. }
  destruct ms as [|mt ms]; [constructor|].
  clear Hm. generalize (mt :: ms) HP. clear mt ms HP. intros ms HP.
  assert (Hgen : forall acc (Q : jsstring -> Prop),
            (forall e, (exists pre id ws1 ws2 ty post,
                line = pre ++ id ++ ws1 ++ 58 :: ws2 ++ ty ++ post /\
                isIdentifier id = true /\
                Forall (fun c => isWhiteSpace c = true) ws1 /\
                Forall (fun c => isWhiteSpace c = true) ws2 /\
                In ty paramTypes /\ e = ty ++ 32 :: id) -> Q e) ->
            Forall Q acc -> Forall Q (foldl pushTypedParam acc ms)).
  { induction HP as [|mt ms Hmt _ IH]; intros acc Q HQ Hacc; cbn [foldl];
      [assumption|].
    apply IH; [assumption|].
    destruct Hmt as (pre & id & ws1 & ws2 & ty & post & Hl & -> & Hid & H1 & H2 & Hty).
    rewrite pushTypedParam_shape by assumption.
    apply Forall_app. split; [assumption|]. constructor; [|constructor].
    apply HQ. exists pre, id, ws1, ws2, ty, post.
    split; [|auto 10].
    etransitivity; [exact Hl|].
    rewrite <- !app_assoc. cbn [app]. rewrite <- !app_assoc. reflexivity. }
  apply Hgen; [auto|constructor].
Qed.

End FunctionFacts.

(** ** The invariant of the scanner *)

Section ScannerFacts.
Import Js Trace Server Vocabulary.

(** What a header match captured, and that the line has a parenthesis. *)
Lemma functionStart_exec line m :
  matchFirst line functionStartPattern = Some m ->
  exists fname paramsString,
    groups m !! 1%nat = Some fname /\ groups m !! 2%nat = Some paramsString /\
    isIdentifier fname = true /\
    Forall (fun c => isLineTerminator c = false) paramsString /\
    In 40 line.
Proof.
  unfold matchFirst.
  destruct (exec functionStartPattern line) as [[m'|] R'] eqn:He;
    [|discriminate].
  intros H. inversion H; subst m'; clear H.
  apply exec_layout in He.
  destruct He as (x & y & Hf & Hr & Hs & _ & Hc & Hg & _).
  apply functionStart_shape in Hf.
  destruct Hf as (fname & ps & w & Hcap & Hid & Hps & Hr' & Hin).
  exists fname, ps. rewrite Hg, Hcap.
  split; [rewrite lookup_insert_ne by discriminate; apply lookup_insert_eq|].
  split; [apply lookup_insert_eq|].
  split; [assumption|]. split; [assumption|].
  rewrite Hs, (reads_inj _ _ _ _ Hr Hr'), !in_app_iff. auto.
Qed.

Lemma headerGroup_identifier line fname :
  headerGroup 1 line = Some fname -> isIdentifier fname = true.
Proof.
  unfold headerGroup.
  destruct (matchFirst line functionStartPattern) as [m|] eqn:Hm;
    [|discriminate].
  destruct (functionStart_exec _ _ Hm) as (f & ps & H1 & _ & Hid & _).
  rewrite H1. intros H. inversion H; subst. assumption.
Qed.

Lemma isHeader_parenthesis line : isHeader line = true -> In 40 line.
Proof.
  unfold isHeader.
  destruct (matchFirst line functionStartPattern) as [m|] eqn:Hm;
    [|discriminate].
  intros _. destruct (functionStart_exec _ _ Hm) as (f & ps & _ & _ & _ & _ & H).
  exact H.
Qed.

Lemma isEndFn_layout line :
  isEndFn line = true ->
  exists a b, line = a ++ str "END FN" ++ b /\
    Forall (fun c => isWhiteSpace c = true) a /\
    Forall (fun c => isWhiteSpace c = true) b.
Proof.
  unfold isEndFn, jsstring_eqb. intros H. apply bool_decide_eq_true in H.
  destruct (trim_spec line) as (a & b & Hl & Ha & Hb & _).
  rewrite H in Hl. eauto.
Qed.

Lemma isEndFn_not_header line : isEndFn line = true -> isHeader line = false.
Proof.
  intros He. destruct (isHeader line) eqn:Hh; [|reflexivity].
  apply isHeader_parenthesis in Hh.
  destruct (isEndFn_layout _ He) as (a & b & -> & Ha & Hb).
  rewrite !in_app_iff in Hh.
  assert (Hws : forall u, Forall (fun c => isWhiteSpace c = true) u -> ~ In 40 u).
  { intros u Hu Hin. rewrite Forall_forall in Hu.
    apply list_elem_of_In in Hin. apply Hu in Hin. discriminate. }
  destruct Hh as [Hh|[Hh|Hh]].
  - destruct (Hws _ Ha Hh).
  - vm_compute in Hh. repeat (destruct Hh as [Hh|Hh]; [discriminate|]).
    destruct Hh.
  - destruct (Hws _ Hb Hh).
Qed.

Lemma scanLine_cases sc line :
  (isInFunction sc = true /\ isEndFn line = true /\
   scanLine sc line
   = Ok (mkScan (functionDeclarations sc ++
                   [mkFunction (functionName sc) (functionParams sc)])
           [] [] false)) \/
  (isInFunction sc = true /\ isEndFn line = false /\
   scanLine sc line
   = Ok (mkScan (functionDeclarations sc) (functionName sc)
           (functionParams sc ++ typedParams line) true)) \/
  (isInFunction sc = false /\ isHeader line = true /\
   exists fname paramsString,
     headerGroup 1 line = Some fname /\
     headerGroup 2 line = Some paramsString /\
     scanLine sc line
     = Ok (mkScan (functionDeclarations sc) fname
             (map trim (split 44 paramsString)) true)) \/
  (isInFunction sc = false /\ isHeader line = false /\
   scanLine sc line = Ok sc).
Proof.
  destruct (isInFunction sc) eqn:Hin.
  - destruct (isEndFn line) eqn:Hend.
    + left. auto using scanLine_end.
    + right. left. auto using scanLine_body.
  - right. right. destruct (isHeader line) eqn:Hh.
    + left. destruct (isHeader_groups _ Hh) as (fname & ps & H1 & H2).
      split; [reflexivity|]. split; [reflexivity|].
      exists fname, ps. auto using scanLine_headerGroup.
    + right. split; [reflexivity|]. split; [reflexivity|].
      apply scanLine_skip; [assumption|]. unfold isHeader in Hh.
      destruct (matchFirst line functionStartPattern); [discriminate|reflexivity].
Qed.

Lemma typedEntry_wellFormed ty id :
  In ty paramTypes -> isIdentifier id = true ->
  isTrimmed (ty ++ 32 :: id) = true /\ ~ In 44 (ty ++ 32 :: id).
Proof.
  intros Hty Hid.
  destruct (paramTypes_word _ Hty) as [Hn1 Hw1].
  destruct (identifier_chars _ Hid) as [Hn2 Hw2].
  assert (Hnc : forall u, Forall (fun c => isWordChar c = true) u -> ~ In 44 u).
  { intros u Hu Hin. rewrite Forall_forall in Hu.
    apply list_elem_of_In in Hin. apply Hu in Hin.
    apply wordChar_plain in Hin. tauto. }
  split.
  - unfold isTrimmed. rewrite rev_app_distr. cbn [rev]. rewrite <- !app_assoc.
    destruct ty as [|c ty]; [contradiction|]. inversion Hw1; subst.
    cbn [app startsWithSpace].
    destruct (rev id) as [|d r] eqn:Hr.
    { apply (f_equal (@rev char)) in Hr. rewrite rev_involutive in Hr.
      contradiction. }
    assert (Hd : isWordChar d = true).
    { rewrite Forall_forall in Hw2. apply Hw2.
      apply list_elem_of_In, in_rev. rewrite Hr. left. reflexivity. }
    cbn [app startsWithSpace].
    match goal with H : isWordChar c = true |- _ =>
      apply wordChar_plain in H; destruct H as [-> _] end.
    apply wordChar_plain in Hd. destruct Hd as [-> _]. reflexivity.
  - rewrite in_app_iff. intros [H|[H|H]].
    + exact (Hnc _ Hw1 H).
    + discriminate.
    + exact (Hnc _ Hw2 H).
Qed.

Lemma typedParams_wellFormed line :
  Forall (fun p => isTrimmed p = true /\ ~ In 44 p) (typedParams line).
Proof.
  eapply Forall_impl; [apply typedParams_entries|].
  intros e (pre & id & ws1 & ws2 & ty & post & _ & Hid & _ & _ & Hty & ->).
  apply typedEntry_wellFormed; assumption.
Qed.

Lemma headerPieces_wellFormed paramsString :
  wellFormedParams (map trim (split 44 paramsString)).
Proof.
  split.
  - pose proof (split_nonempty 44 paramsString) as H.
    destruct (split 44 paramsString); [contradiction|discriminate].
  - apply Forall_map. eapply Forall_impl; [apply split_no_sep|].
    intros p Hp. cbn beta.
    destruct (trim_spec p) as (a & b & Hl & _ & _ & Ht).
    split; [assumption|]. intros Hin.
    rewrite Forall_forall in Hp. apply (Hp 44); [|reflexivity].
    apply list_elem_of_In. rewrite Hl, !in_app_iff. auto.
Qed.

(** The scanner keeps its invariant over every line of the text. *)
Lemma scanLine_invariant lines sc line sc' :
  In line lines -> scanInvariant lines sc ->
  scanLine sc line = Ok sc' -> scanInvariant lines sc'.
Proof.
  intros Hline [Hdecls Hstate] Hstep.
  destruct (scanLine_cases sc line)
    as [(Hin & _ & H)|[(Hin & _ & H)|[(Hin & _ & fname & ps & H1 & H2 & H)|
                                       (Hin & _ & H)]]];
    rewrite H in Hstep; inversion Hstep; subst sc'; clear Hstep H;
    rewrite Hin in Hstate.
  - split; [|split; reflexivity]. cbn [functionDeclarations].
    apply Forall_app. split; [assumption|]. constructor; [|constructor].
    exact Hstate.
  - split; [assumption|]. cbn [isInFunction functionName functionParams].
    destruct Hstate as [Hname [Hne Hall]]. split; [assumption|].
    split.
    + destruct (functionParams sc); [contradiction|discriminate].
    + apply Forall_app. split; [assumption|apply typedParams_wellFormed].
  - split; [assumption|]. cbn [isInFunction functionName functionParams].
    split; [|apply headerPieces_wellFormed].
    split; [eapply headerGroup_identifier; eassumption|eauto].
  - split; [assumption|]. rewrite Hin. assumption.
Qed.

Lemma scanLines_invariant lines part : forall sc sc',
  (forall l, In l part -> In l lines) -> scanInvariant lines sc ->
  forEach scanLine part sc = Ok sc' -> scanInvariant lines sc'.
Proof.
  induction part as [|line part IH]; intros sc sc' Hsub Hinv H;
    cbn [forEach] in H.
  - inversion H; subst. assumption.
  - destruct (scanLine sc line) as [sc1| |] eqn:H1; cbn [bind] in H;
      try discriminate.
    eapply IH; [| |exact H].
    + intros l Hl. apply Hsub. right. assumption.
    + eapply scanLine_invariant; [apply Hsub; left; reflexivity| |exact H1].
      assumption.
Qed.

Lemma scanStart_invariant lines : scanInvariant lines scanStart.
Proof. split; [constructor|split; reflexivity]. Qed.

(** Counting: a declaration needs a closing line, and a header line. *)
Lemma scanLines_count lines : forall sc sc',
  forEach scanLine lines sc = Ok sc' ->
  (length (functionDeclarations sc')
   <= length (functionDeclarations sc) + countLines isEndFn lines)%nat /\
  (length (functionDeclarations sc') + (if isInFunction sc' then 1 else 0)
   <= length (functionDeclarations sc) + (if isInFunction sc then 1 else 0)
      + countLines isHeader lines)%nat.
Proof.
  unfold countLines.
  induction lines as [|line lines IH]; intros sc sc' H; cbn [forEach] in H.
  - inversion H; subst. cbn. lia.
  - destruct (scanLine sc line) as [sc1| |] eqn:H1; cbn [bind] in H;
      try discriminate.
    apply IH in H. cbn [List.filter].
    destruct (scanLine_cases sc line)
      as [(Hin & He & Hs)|[(Hin & He & Hs)|[(Hin & He & f & ps & _ & _ & Hs)|
                                            (Hin & He & Hs)]]];
      rewrite Hs in H1; inversion H1; subst sc1; clear H1 Hs;
      rewrite Hin, ?He; cbn [functionDeclarations isInFunction] in H;
      rewrite ?length_app in H; cbn [length] in *;
      destruct (isEndFn line), (isHeader line); cbn [length]; try lia;
      try (rewrite Hin in H; lia).
Qed.

(** Declarations found before do not matter for what is found next. *)
Lemma scanLines_shift D lines : forall D0 n p b sc',
  forEach scanLine lines (mkScan D0 n p b) = Ok sc' ->
  forEach scanLine lines (mkScan (D ++ D0) n p b)
  = Ok (mkScan (D ++ functionDeclarations sc') (functionName sc')
          (functionParams sc') (isInFunction sc')).
Proof.
  induction lines as [|line lines IH]; intros D0 n p b sc' H;
    cbn [forEach] in H |- *.
  - inversion H; subst. reflexivity.
  - destruct (scanLine (mkScan D0 n p b) line) as [sc1| |] eqn:H1;
      cbn [bind] in H; try discriminate.
    assert (Hs : scanLine (mkScan (D ++ D0) n p b) line
                 = Ok (mkScan (D ++ functionDeclarations sc1)
                         (functionName sc1) (functionParams sc1)
                         (isInFunction sc1))).
    { destruct (scanLine_cases (mkScan D0 n p b) line)
        as [(Hin & He & Hs)|[(Hin & He & Hs)|[(Hin & He & f & ps & G1 & G2 & Hs)|
                                              (Hin & He & Hs)]]];
        rewrite Hs in H1; inversion H1; subst sc1; clear H1 Hs;
        cbn [isInFunction functionDeclarations functionName functionParams]
          in *.
      - rewrite scanLine_end by assumption. cbn. rewrite app_assoc. reflexivity.
      - rewrite scanLine_body by assumption. reflexivity.
      - erewrite scanLine_headerGroup by eassumption. reflexivity.
      - rewrite scanLine_skip; [reflexivity|assumption|].
        unfold isHeader in He.
        destruct (matchFirst line functionStartPattern);
          [discriminate|reflexivity]. }
    rewrite Hs. cbn [bind]. destruct sc1 as [D1 n1 p1 b1].
    cbn [functionDeclarations functionName functionParams isInFunction].
    apply IH. exact H.
Qed.

End ScannerFacts.

(** ** The matches of the validator *)

Section ValidatorFacts.
Import Js Trace Server Vocabulary.

(** A match of the validator's pattern, laid out in the text. *)
Lemma allCaps_exec s i m R' :
  exec (setLastIndex i allCapsPattern) s = (Some m, R') ->
  exists pre post,
    s = pre ++ matched m ++ post /\ index m = length pre /\
    (2 <= length (matched m))%nat /\
    Forall (fun c => isUpper c = true) (matched m) /\
    endsInWord pre = false /\ startsWithWord post = false.
Proof.
  intros He. apply exec_layout in He.
  destruct He as (x & y & Hf & Hr & Hs & Hi & _).
  destruct (allCaps_shape _ _ _ Hf Hr) as (Hlen & Hup & Hb & Ha).
  exists (rev (before x)), (after y).
  split; [exact Hs|]. split; [rewrite length_rev; exact Hi|].
  split; [assumption|]. split; [assumption|].
  split; [|assumption].
  unfold endsInWord. rewrite rev_involutive. exact Hb.
Qed.

Lemma matchesFrom_lower R0 s :
  global R0 = true ->
  forall fuel i,
    Forall (fun m => (i <= index m)%nat)
      (matchesFrom fuel (setLastIndex i R0) s).
Proof.
  intros Hg. induction fuel as [|fuel IH]; intros i; cbn [matchesFrom];
    [constructor|].
  destruct (exec (setLastIndex i R0) s) as [[m|] R'] eqn:He; [|constructor].
  apply exec_some in He.
  destruct He as (_ & _ & _ & _ & _ & _ & _ & _ & Hlo & _ & ->).
  change (global (setLastIndex i R0)) with (global R0) in *.
  rewrite Hg in *. change (lastIndex (setLastIndex i R0)) with i in Hlo.
  constructor; [assumption|].
  change (setLastIndex ?j (setLastIndex i R0)) with (setLastIndex j R0).
  eapply Forall_impl; [apply IH|]. cbn beta. intros m' Hm'. lia.
Qed.

Lemma matchesFrom_ordered R0 s :
  global R0 = true ->
  forall fuel i j k mj mk,
    (j < k)%nat ->
    matchesFrom fuel (setLastIndex i R0) s !! j = Some mj ->
    matchesFrom fuel (setLastIndex i R0) s !! k = Some mk ->
    (index mj + length (matched mj) <= index mk)%nat.
Proof.
  intros Hg. induction fuel as [|fuel IH]; intros i j k mj mk Hjk Hj Hk;
    cbn [matchesFrom] in Hj, Hk; [discriminate|].
  destruct (exec (setLastIndex i R0) s) as [[m|] R'] eqn:He; [|discriminate].
  apply exec_some in He.
  destruct He as (_ & _ & _ & _ & _ & _ & _ & _ & _ & _ & ->).
  change (global (setLastIndex i R0)) with (global R0) in *.
  rewrite Hg in *.
  change (setLastIndex ?j (setLastIndex i R0)) with (setLastIndex j R0) in *.
  destruct k as [|k]; [lia|]. cbn in Hk.
  destruct j as [|j].
  - cbn in Hj. inversion Hj; subst mj.
    pose proof (matchesFrom_lower R0 s Hg fuel
                  (index m + length (matched m))) as Hl.
    rewrite Forall_forall in Hl. apply Hl.
    eapply list_elem_of_lookup_2. exact Hk.
  - cbn in Hj. eapply IH; [|exact Hj|exact Hk]. lia.
Qed.

Lemma hasCapsPair_found pre c1 c2 rest :
  isUpper c1 = true -> isUpper c2 = true ->
  hasCapsPair (pre ++ c1 :: c2 :: rest) = true.
Proof.
  intros H1 H2. induction pre as [|c pre IH].
  - cbn. rewrite H1, H2. reflexivity.
  - cbn [app hasCapsPair]. rewrite IH.
    destruct (pre ++ c1 :: c2 :: rest) eqn:He;
      [destruct pre; discriminate|].
    apply orb_true_r.
Qed.

End ValidatorFacts.

(** ** Further properties of the extractors and the validator *)

Section MoreProperties.
Import Js Trace Server Vocabulary.

(** X1. The lines both extractors work on lose nothing of the text:
    joined with newline characters they give the text back, no line has a
    newline in it, and there is one line more than there are newlines. *)
Theorem lines_lose_nothing :
  forall document,
    joinLines (split 10 (getText document)) = getText document /\
    Forall (Forall (fun c => c <> 10)) (split 10 (getText document)) /\
    length (split 10 (getText document))
    = S (length (List.filter (N.eqb 10) (getText document))).
Proof.
  intros document. split; [apply joinLines_split|].
  split; [apply split_no_sep|apply split_length].
Qed.

(** X2. The variable extractor works line by line: the declarations of a
    text made of two texts with a newline between are those of the first
    followed by those of the second. The RegExp object the lines share
    carries nothing over, and nothing is deduplicated: a text repeated on
    the next line gives its declarations twice. *)
Theorem variables_line_by_line :
  forall u p a b,
    exists va vb,
      extractVariableDeclarations (mkDocument u a p) = Ok va /\
      extractVariableDeclarations (mkDocument u b p) = Ok vb /\
      extractVariableDeclarations (mkDocument u (a ++ 10 :: b) p)
      = Ok (va ++ vb) /\
      extractVariableDeclarations (mkDocument u (a ++ 10 :: a) p)
      = Ok (va ++ va).
Proof.
  intros u p a b. rewrite !extractVariableDeclarations_lines.
  cbn [getText]. eexists _, _.
  split; [reflexivity|]. split; [reflexivity|].
  rewrite !split_app, !map_app, !concat_app. split; reflexivity.
Qed.

(** X3. Every declaration the variable extractor reports stands in the
    text: on some line its type keyword, one of STRING, INT, FLOAT, CHAR,
    is followed by white space and then by its name, the name is an
    identifier, and no word character follows the name. *)
Theorem variables_occur_in_text :
  forall document,
    exists decls,
      extractVariableDeclarations document = Ok decls /\
      Forall (fun v =>
                exists line pre ws post,
                  In line (split 10 (getText document)) /\
                  line = pre ++ containerName v ++ ws ++ var_name v ++ post /\
                  In (containerName v) variableTypes /\
                  ws <> [] /\ Forall (fun c => isWhiteSpace c = true) ws /\
                  isIdentifier (var_name v) = true /\
                  startsWithWord post = false)
        decls.
Proof.
  intros document. rewrite extractVariableDeclarations_lines.
  eexists. split; [reflexivity|].
  generalize (split 10 (getText document)). intros lines.
  induction lines as [|line lines IH]; cbn [map concat]; [constructor|].
  apply Forall_app. split.
  - eapply Forall_impl; [apply lineVariables_occurrence|].
    intros v (pre & ws & post & H). exists line, pre, ws, post.
    split; [left; reflexivity|exact H].
  - eapply Forall_impl; [exact IH|].
    intros v (l & pre & ws & post & Hin & H). exists l, pre, ws, post.
    split; [right; exact Hin|exact H].
Qed.

Lemma extract_invariant document :
  exists decls,
    extractFunctionDeclarations document = Ok decls /\
    Forall (fun f => headerNameOn (split 10 (getText document)) (name f) /\
                     wellFormedParams (params f)) decls.
Proof.
  unfold extractFunctionDeclarations.
  destruct (scanLines_total (split 10 (getText document)) scanStart)
    as [sc Hsc].
  rewrite Hsc. cbn [bind]. eexists. split; [reflexivity|].
  apply (scanLines_invariant (split 10 (getText document))) in Hsc;
    [apply Hsc|auto|apply scanStart_invariant].
Qed.

(** X4. Every function the function extractor reports has a name that the
    header pattern captured on a line of the text, that name is an
    identifier, and its parameter list is never empty. *)
Theorem functions_named_by_a_header :
  forall document,
    exists decls,
      extractFunctionDeclarations document = Ok decls /\
      Forall (fun f =>
                isIdentifier (name f) = true /\
                (exists line, In line (split 10 (getText document)) /\
                              headerGroup 1 line = Some (name f)) /\
                params f <> [])
        decls.
Proof.
  intros document. destruct (extract_invariant document) as (decls & He & H).
  exists decls. split; [assumption|].
  eapply Forall_impl; [exact H|].
  intros f [[Hid Hl] [Hne _]]. auto.
Qed.

(** X5. No parameter of a reported function has white space at either end
    or a comma in it. *)
Theorem params_trimmed_without_comma :
  forall document,
    exists decls,
      extractFunctionDeclarations document = Ok decls /\
      Forall (fun f =>
                Forall (fun p => isTrimmed p = true /\ ~ In 44 p) (params f))
        decls.
Proof.
  intros document. destruct (extract_invariant document) as (decls & He & H).
  exists decls. split; [assumption|].
  eapply Forall_impl; [exact H|].
  intros f [_ [_ Hall]]. exact Hall.
Qed.

(** X6. Inside a function, a line that does not close it only adds
    parameters, and each one it adds is [TYPE name] for an occurrence
    [name : TYPE] on the line, with white space allowed around the colon,
    TYPE one of STRING, INT, FLOAT, CHAR, BOOL and name an identifier. *)
Theorem body_line_adds_typed_entries :
  forall sc line,
    isInFunction sc = true -> isEndFn line = false ->
    exists entries,
      scanLine sc line
      = Ok (mkScan (functionDeclarations sc) (functionName sc)
              (functionParams sc ++ entries) true) /\
      Forall (fun e =>
                exists pre id ws1 ws2 ty post,
                  line = pre ++ id ++ ws1 ++ 58 :: ws2 ++ ty ++ post /\
                  isIdentifier id = true /\
                  Forall (fun c => isWhiteSpace c = true) ws1 /\
                  Forall (fun c => isWhiteSpace c = true) ws2 /\
                  In ty paramTypes /\ e = ty ++ 32 :: id)
        entries.
Proof.
  intros sc line Hin Hend. exists (typedParams line).
  split; [apply scanLine_body; assumption|apply typedParams_entries].
Qed.

Lemma body_line_adds_typed_entries_witness :
  let sc := mkScan [] (str "f") [str "a"] true in
  isInFunction sc = true /\ isEndFn (str " x : INT, y:BOOL") = false /\
  exists entries,
    scanLine sc (str " x : INT, y:BOOL")
    = Ok (mkScan (functionDeclarations sc) (functionName sc)
            (functionParams sc ++ entries) true) /\
    Forall (fun e =>
              exists pre id ws1 ws2 ty post,
                str " x : INT, y:BOOL"
                = pre ++ id ++ ws1 ++ 58 :: ws2 ++ ty ++ post /\
                isIdentifier id = true /\
                Forall (fun c => isWhiteSpace c = true) ws1 /\
                Forall (fun c => isWhiteSpace c = true) ws2 /\
                In ty paramTypes /\ e = ty ++ 32 :: id)
      entries.
Proof.
  cbv zeta.
  assert (Hend : isEndFn (str " x : INT, y:BOOL") = false)
    by (vm_compute; reflexivity).
  split; [reflexivity|]. split; [exact Hend|].
  exact (body_line_adds_typed_entries
           (mkScan [] (str "f") [str "a"] true) _ eq_refl Hend).
Defined.

(** X7. The function extractor reports at most as many functions as the
    text has closing lines, and at most as many as it has lines the header
    pattern matches; so a text without either has no function. *)
Theorem declarations_bounded_by_lines :
  forall document,
    exists decls,
      extractFunctionDeclarations document = Ok decls /\
      (length decls
       <= countLines isEndFn (split 10%N (getText document)))%nat /\
      (length decls
       <= countLines isHeader (split 10%N (getText document)))%nat.
Proof.
  intros document. unfold extractFunctionDeclarations.
  destruct (scanLines_total (split 10 (getText document)) scanStart)
    as [sc Hsc].
  rewrite Hsc. cbn [bind]. eexists. split; [reflexivity|].
  apply scanLines_count in Hsc. cbn in Hsc.
  destruct (isInFunction sc); lia.
Qed.

(** X8. A line that closes a function is never taken for a header, so
    outside a function it changes nothing. *)
Theorem closing_line_is_no_header :
  forall line,
    isEndFn line = true ->
    isHeader line = false /\
    forall sc, isInFunction sc = false -> scanLine sc line = Ok sc.
Proof.
  intros line He. pose proof (isEndFn_not_header _ He) as Hh.
  split; [assumption|]. intros sc Hout.
  apply scanLine_skip; [assumption|]. unfold isHeader in Hh.
  destruct (matchFirst line functionStartPattern); [discriminate|reflexivity].
Qed.

Lemma closing_line_is_no_header_witness :
  isEndFn (str "  END FN ") = true /\
  isHeader (str "  END FN ") = false /\
  scanLine scanStart (str "  END FN ") = Ok scanStart.
Proof.
  assert (He : isEndFn (str "  END FN ") = true) by (vm_compute; reflexivity).
  split; [exact He|].
  split; [exact (proj1 (closing_line_is_no_header _ He))|].
  exact (proj2 (closing_line_is_no_header _ He) scanStart eq_refl).
Defined.

(** X9. When the scanner is outside a function at the end of a text, the
    functions of that text followed by a newline and a second text are
    the functions of the first followed by those of the second. *)
Theorem functions_compose_after_closed_text :
  forall u p a b,
    endsOutside a = true ->
    exists fa fb,
      extractFunctionDeclarations (mkDocument u a p) = Ok fa /\
      extractFunctionDeclarations (mkDocument u b p) = Ok fb /\
      extractFunctionDeclarations (mkDocument u (a ++ 10 :: b) p)
      = Ok (fa ++ fb).
Proof.
  intros u p a b Hout. unfold endsOutside in Hout.
  unfold extractFunctionDeclarations. cbn [getText].
  destruct (forEach scanLine (split 10 a) scanStart) as [sa| |] eqn:Ha;
    try discriminate.
  apply negb_true_iff in Hout.
  destruct (scanLines_total (split 10 b) scanStart) as [sb Hb].
  exists (functionDeclarations sa), (functionDeclarations sb).
  rewrite Hb. cbn [bind]. split; [reflexivity|]. split; [reflexivity|].
  rewrite split_app, (forEach_app _ _ _ _ _ Ha).
  pose proof (scanLines_invariant (split 10 a) (split 10 a) _ _
                (fun l H => H) (scanStart_invariant _) Ha) as [_ Hst].
  rewrite Hout in Hst. destruct Hst as [Hn Hp].
  destruct sa as [Da na pa ba]. cbn in Hn, Hp, Hout. subst na pa ba.
  pose proof (scanLines_shift Da (split 10 b) [] [] [] false sb Hb) as Hs.
  rewrite app_nil_r in Hs. rewrite Hs. reflexivity.
Qed.

Lemma functions_compose_after_closed_text_witness :
  endsOutside (text ["FN foo(a)"; "END FN"]) = true /\
  exists fa fb,
    extractFunctionDeclarations
      (mkDocument [] (text ["FN foo(a)"; "END FN"]) (fun _ => mkPosition 0 0))
    = Ok fa /\
    extractFunctionDeclarations
      (mkDocument [] (text ["FN bar()"; "END FN"]) (fun _ => mkPosition 0 0))
    = Ok fb /\
    extractFunctionDeclarations
      (mkDocument []
         (text ["FN foo(a)"; "END FN"] ++ 10 :: text ["FN bar()"; "END FN"])
         (fun _ => mkPosition 0 0))
    = Ok (fa ++ fb).
Proof.
  assert (Hout : endsOutside (text ["FN foo(a)"; "END FN"]) = true)
    by (vm_compute; reflexivity).
  split; [exact Hout|].
  exact (functions_compose_after_closed_text [] (fun _ => mkPosition 0 0)
           _ (text ["FN bar()"; "END FN"]) Hout).
Defined.

(** X10. Every diagnostic the validation loop builds is a Warning for a
    token of the text: two or more capital letters, with no word character
    right before or right after, its range running from the offset of the
    token to the offset of its end, its message the token followed by
    [ is all uppercase.]. *)
Theorem built_diagnostics_cover_tokens :
  forall sv settings document,
    exists run,
      validateWith sv settings document = Ok run /\
      Forall (fun d =>
                exists pre token post,
                  getText document = pre ++ token ++ post /\
                  (2 <= length token)%nat /\
                  Forall (fun c => isUpper c = true) token /\
                  endsInWord pre = false /\ startsWithWord post = false /\
                  severity d = Warning /\
                  range d
                  = mkRange (positionAt document (length pre))
                      (positionAt document (length pre + length token)) /\
                  message d = token ++ str " is all uppercase.")
        (built run).
Proof.
  intros sv settings document. rewrite validateWith_total. cbv zeta.
  eexists. split; [reflexivity|]. cbn [built].
  apply Forall_map, Forall_take. unfold allCapsMatches.
  apply (matchesFrom_Forall _ allCapsPattern _ eq_refl).
  intros i m R' He. apply allCaps_exec in He.
  destruct He as (pre & post & Hs & Hi & Hlen & Hup & Hb & Ha).
  exists pre, (matched m), post. unfold makeDiagnostic.
  cbn [severity range message]. rewrite Hi. auto 10.
Qed.

(** X11. The validation loop goes through the ALL-CAPS tokens in the
    order of the text and without overlap: of two diagnostics it builds,
    the later one is for a match that starts at or after the end of the
    match of the earlier one. *)
Theorem built_diagnostics_in_order :
  forall sv settings document,
    let ms := take (Z.to_nat (maxNumberOfProblems settings))
                (allCapsMatches (getText document)) in
    validateWith sv settings document
    = Ok (mkRun (Z.of_nat (length ms)) []
            (map (makeDiagnostic sv document) ms)) /\
    forall j k mj mk,
      (j < k)%nat -> ms !! j = Some mj -> ms !! k = Some mk ->
      (index mj + length (matched mj) <= index mk)%nat.
Proof.
  intros sv settings document. cbv zeta.
  split; [apply validateWith_total|].
  intros j k mj mk Hjk Hj Hk.
  apply lookup_take_Some in Hj, Hk. destruct Hj as [Hj _], Hk as [Hk _].
  unfold allCapsMatches in Hj, Hk.
  exact (matchesFrom_ordered allCapsPattern _ eq_refl _ 0 j k mj mk Hjk Hj Hk).
Qed.

Lemma built_diagnostics_in_order_witness :
  let ms := take (Z.to_nat (maxNumberOfProblems defaultSettings))
              (allCapsMatches (getText (documentOf ["ABC def GHI"]))) in
  (0 < 1)%nat /\
  ms !! 0%nat = Some (mkMatch 0 (str "ABC") ∅) /\
  ms !! 1%nat = Some (mkMatch 8 (str "GHI") ∅) /\
  (0 + length (str "ABC") <= 8)%nat.
Proof.
  cbv zeta.
  match goal with
  | |- _ /\ ?A /\ ?B /\ _ =>
      assert (H0 : A) by (vm_compute; reflexivity);
      assert (H1 : B) by (vm_compute; reflexivity)
  end.
  split; [lia|]. split; [exact H0|]. split; [exact H1|].
  exact (proj2 (built_diagnostics_in_order initialServer defaultSettings
                  (documentOf ["ABC def GHI"]))
           0%nat 1%nat _ _ (Nat.lt_0_succ 0) H0 H1).
Defined.

(** X12. On a text without two capital letters in a row the validation
    loop never enters its body: no problem is counted and no diagnostic is
    built, whatever the settings. *)
Theorem no_capital_pair_nothing_built :
  forall sv settings document,
    hasCapsPair (getText document) = false ->
    validateWith sv settings document = Ok (mkRun 0 [] []).
Proof.
  intros sv settings document Hno. rewrite validateWith_total. cbv zeta.
  assert (Hm : allCapsMatches (getText document) = []).
  { destruct (allCapsMatches (getText document)) as [|m ms] eqn:He;
      [reflexivity|].
    assert (Hin : Forall (fun m => exists pre post,
                            getText document = pre ++ matched m ++ post /\
                            (2 <= length (matched m))%nat /\
                            Forall (fun c => isUpper c = true) (matched m))
                    (allCapsMatches (getText document))).
    { unfold allCapsMatches.
      apply (matchesFrom_Forall _ allCapsPattern _ eq_refl).
      intros i m' R' Hx. apply allCaps_exec in Hx.
      destruct Hx as (pre & post & Hs & _ & Hlen & Hup & _). eauto. }
    rewrite He in Hin. inversion Hin as [|? ? (pre & post & Hs & Hlen & Hup) _].
    subst. destruct (matched m) as [|c1 [|c2 w]]; cbn in Hlen; try lia.
    inversion Hup as [|? ? H1 Hup']; subst.
    inversion Hup' as [|? ? H2 _]; subst.
    rewrite Hs in Hno. cbn [app] in Hno.
    rewrite (hasCapsPair_found pre c1 c2 (w ++ post) H1 H2) in Hno.
    discriminate. }
  rewrite Hm, take_nil. reflexivity.
Qed.

Lemma no_capital_pair_nothing_built_witness :
  hasCapsPair (getText (documentOf ["Hello World, a B c"])) = false /\
  validateWith initialServer defaultSettings
    (documentOf ["Hello World, a B c"]) = Ok (mkRun 0 [] []).
Proof.
  assert (H : hasCapsPair (getText (documentOf ["Hello World, a B c"]))
              = false) by (vm_compute; reflexivity).
  split; [exact H|].
  exact (no_capital_pair_nothing_built initialServer defaultSettings _ H).
Defined.

End MoreProperties.

(** ** Further properties of the state and the handlers *)

Section StateProperties.
Import Js Trace Server Vocabulary.

(** X13. In a server without the configuration capability every document
    gets the global settings, the client is not asked and nothing is
    cached. A configuration change replaces the global settings by the
    [languageServerExample] member it carries, or by the default settings
    ([maxNumberOfProblems] 1000) when that member is missing, and this is
    what every document gets from then on; a change that carries [null]
    for its settings raises. *)
Theorem settings_without_configuration_capability :
  forall sv,
    hasConfigurationCapability sv = false ->
    (forall getConfiguration resource,
       getDocumentSettings getConfiguration sv resource
       = (globalSettings sv, sv)) /\
    onDidChangeConfiguration None sv = TypeError /\
    forall member,
      exists sv',
        onDidChangeConfiguration (Some (mkChange member)) sv = Ok sv' /\
        documents sv' = documents sv /\
        forall getConfiguration resource,
          getDocumentSettings getConfiguration sv' resource
          = (match member with
             | Some s => s
             | None => mkSettings 1000
             end, sv').
Proof.
  intros sv Hc. split; [|split].
  - intros g r. unfold getDocumentSettings. rewrite Hc. reflexivity.
  - unfold onDidChangeConfiguration. rewrite Hc. reflexivity.
  - intros member. unfold onDidChangeConfiguration. rewrite Hc.
    eexists. split; [reflexivity|]. split; [reflexivity|].
    intros g r. unfold getDocumentSettings.
    cbn [hasConfigurationCapability globalSettings negb].
    destruct member; reflexivity.
Qed.

Lemma settings_without_configuration_capability_witness :
  hasConfigurationCapability initialServer = false /\
  getDocumentSettings (fun _ => mkSettings 5) initialServer (str "file:///a")
  = (mkSettings 1000, initialServer) /\
  onDidChangeConfiguration None initialServer = TypeError.
Proof.
  split; [reflexivity|].
  destruct (settings_without_configuration_capability initialServer eq_refl)
    as (H1 & H2 & _).
  split; [exact (H1 (fun _ => mkSettings 5) (str "file:///a"))|exact H2].
Defined.

(** X14. In a server with the configuration capability the settings of a
    document are asked from the client once and then served from the
    cache, whatever the client would answer later; a configuration change
    never raises, whatever it carries, and after it every document gets
    what the client answers then. *)
Theorem settings_cached_until_configuration_change :
  forall sv getConfiguration later resource change,
    hasConfigurationCapability sv = true ->
    let first := getDocumentSettings getConfiguration sv resource in
    getDocumentSettings later (snd first) resource = first /\
    exists sv',
      onDidChangeConfiguration change (snd first) = Ok sv' /\
      forall other, fst (getDocumentSettings later sv' other) = later other.
Proof.
  intros sv g later r change Hc. cbv zeta.
  destruct (getDocumentSettings g sv r) as [s sv1] eqn:H1. cbn [fst snd].
  unfold getDocumentSettings in H1. rewrite Hc in H1. cbn [negb] in H1.
  assert (Hc1 : hasConfigurationCapability sv1 = true /\
                documentSettings sv1 !! r = Some s).
  { destruct (documentSettings sv !! r) as [s0|] eqn:Hs;
      inversion H1; subst; clear H1.
    - split; assumption.
    - split; [reflexivity|]. cbn [documentSettings].
      apply lookup_insert_eq. }
  destruct Hc1 as [Hc1 Hs1]. split.
  - unfold getDocumentSettings. rewrite Hc1, Hs1. reflexivity.
  - unfold onDidChangeConfiguration. rewrite Hc1.
    eexists. split; [reflexivity|]. intros other.
    unfold getDocumentSettings.
    cbn [hasConfigurationCapability documentSettings negb].
    rewrite lookup_empty. reflexivity.
Qed.

Lemma settings_cached_until_configuration_change_witness :
  let sv := mkServer true false false defaultSettings ∅ ∅ in
  hasConfigurationCapability sv = true /\
  getDocumentSettings (fun _ => mkSettings 7)
    (snd (getDocumentSettings (fun _ => mkSettings 3) sv (str "file:///a")))
    (str "file:///a")
  = getDocumentSettings (fun _ => mkSettings 3) sv (str "file:///a").
Proof.
  cbv zeta. split; [reflexivity|].
  exact (proj1 (settings_cached_until_configuration_change
                  (mkServer true false false defaultSettings ∅ ∅)
                  (fun _ => mkSettings 3) (fun _ => mkSettings 7)
                  (str "file:///a") None eq_refl)).
Defined.

(** X15. Closing a document forgets its cached settings and no others: in
    a server with the configuration capability the next request for the
    closed document asks the client again, and any other document gets
    what it got before. *)
Theorem closing_forgets_cached_settings :
  forall sv getConfiguration document,
    hasConfigurationCapability sv = true ->
    fst (getDocumentSettings getConfiguration (onDidClose document sv)
           (uri document))
    = getConfiguration (uri document) /\
    forall other,
      other <> uri document ->
      fst (getDocumentSettings getConfiguration (onDidClose document sv) other)
      = fst (getDocumentSettings getConfiguration sv other).
Proof.
  intros sv g document Hc. unfold getDocumentSettings, onDidClose.
  cbn [hasConfigurationCapability documentSettings]. rewrite Hc. cbn [negb].
  split.
  - rewrite lookup_delete_eq. reflexivity.
  - intros other Hne. rewrite lookup_delete_ne by congruence.
    destruct (documentSettings sv !! other); reflexivity.
Qed.

Lemma closing_forgets_cached_settings_witness :
  let document := documentOf ["INT x"] in
  let sv := mkServer true false false defaultSettings
              {[ uri document := mkSettings 3 ]} ∅ in
  hasConfigurationCapability sv = true /\
  fst (getDocumentSettings (fun _ => mkSettings 7) sv (uri document))
  = mkSettings 3 /\
  fst (getDocumentSettings (fun _ => mkSettings 7) (onDidClose document sv)
         (uri document))
  = mkSettings 7.
Proof.
  cbv zeta. split; [reflexivity|].
  split; [vm_compute; reflexivity|].
  exact (proj1 (closing_forgets_cached_settings
                  (mkServer true false false defaultSettings
                     {[ uri (documentOf ["INT x"]) := mkSettings 3 ]} ∅)
                  (fun _ => mkSettings 7) (documentOf ["INT x"]) eq_refl)).
Defined.

(** X16. The content-change handler leaves the three capability flags and
    the global settings as they are, and with an unchanged client
    configuration every document gets the same settings after it as
    before: all it may do is cache the settings of the changed document. *)
Theorem content_change_keeps_settings :
  forall getConfiguration document sv,
    let sv' := onDidChangeContent getConfiguration document sv in
    globalSettings sv' = globalSettings sv /\
    hasConfigurationCapability sv' = hasConfigurationCapability sv /\
    hasWorkspaceFolderCapability sv' = hasWorkspaceFolderCapability sv /\
    hasDiagnosticRelatedInformationCapability sv'
    = hasDiagnosticRelatedInformationCapability sv /\
    forall resource,
      fst (getDocumentSettings getConfiguration sv' resource)
      = fst (getDocumentSettings getConfiguration sv resource).
Proof.
  intros g document sv. cbv zeta.
  unfold onDidChangeContent, validateTextDocument.
  destruct (getDocumentSettings g sv (uri document)) as [s sv1] eqn:H1.
  cbn [snd]. unfold getDocumentSettings in H1.
  destruct (hasConfigurationCapability sv) eqn:Hc; cbn [negb] in H1.
  - destruct (documentSettings sv !! uri document) as [s0|] eqn:Hs;
      inversion H1; subst; clear H1.
    + rewrite Hc. repeat split; reflexivity.
    + cbn [documents globalSettings hasConfigurationCapability
             hasWorkspaceFolderCapability
             hasDiagnosticRelatedInformationCapability].
      repeat (split; [reflexivity|]).
      intros r. unfold getDocumentSettings.
      cbn [hasConfigurationCapability documentSettings negb].
      rewrite Hc. cbn [negb].
      destruct (decide (uri document = r)) as [<-|Hne].
      * rewrite lookup_insert_eq, Hs. reflexivity.
      * rewrite lookup_insert_ne by assumption.
        destruct (documentSettings sv !! r); reflexivity.
  - inversion H1; subst. rewrite Hc. repeat split; reflexivity.
Qed.

(** X17. Resolving a completion item changes at most its detail and its
    documentation, resolving twice is the same as resolving once, and
    every item the completion handler makes, which carries no data, comes
    back from resolving as it was. *)
Theorem resolve_idempotent :
  (forall item,
     onCompletionResolve (onCompletionResolve item) = onCompletionResolve item /\
     resolve_label (onCompletionResolve item) = resolve_label item /\
     resolve_kind (onCompletionResolve item) = resolve_kind item /\
     resolve_data (onCompletionResolve item) = resolve_data item) /\
  (forall completionItems,
     map onCompletionResolve (map toResolve completionItems)
     = map toResolve completionItems).
Proof.
  split.
  - intros [l k d [|[|[p|p|]|p]|] doc]; repeat split; try reflexivity;
      destruct p; reflexivity.
  - intros items. induction items as [|it items IH]; [reflexivity|].
    cbn [map]. rewrite IH. reflexivity.
Qed.

Lemma scanLines_blocks blocks : forall D,
  Forall wellFormedBlock blocks ->
  forEach scanLine (concat (map blockLines blocks)) (mkScan D [] [] false)
  = Ok (mkScan (D ++ map blockDeclaration blocks) [] [] false).
Proof.
  induction blocks as [|b blocks IH]; intros D Hall; cbn [map concat].
  - cbn [forEach]. rewrite app_nil_r. reflexivity.
  - inversion Hall as [|? ? (Hh & Hb & Hc) Hall']; subst.
    destruct (isHeader_groups _ Hh) as (fname & ps & H1 & H2).
    unfold blockLines at 1.
    erewrite forEach_app
      by (apply (scanLines_block (mkScan D [] [] false) (blockHeader b)
                   fname ps (blockBody b) (blockClosing b));
          try assumption; reflexivity).
    cbn [functionDeclarations]. rewrite IH by assumption.
    rewrite <- app_assoc. unfold blockDeclaration at 2.
    rewrite H1, H2. reflexivity.
Qed.

(** X18. A text whose lines are well-formed function blocks one after the
    other gives exactly one function per block, in the order of the
    blocks: its name is what the header pattern captured, its parameters
    are the pieces of the header's parameter text followed by what the
    body lines add. *)
Theorem blocks_in_sequence :
  forall document blocks,
    split 10 (getText document) = concat (map blockLines blocks) ->
    Forall wellFormedBlock blocks ->
    extractFunctionDeclarations document = Ok (map blockDeclaration blocks).
Proof.
  intros document blocks Hs Hall. unfold extractFunctionDeclarations.
  rewrite Hs. unfold scanStart. rewrite scanLines_blocks by assumption.
  reflexivity.
Qed.

Lemma blocks_in_sequence_witness :
  let document :=
    documentOf ["FN foo(a, b)"; " c : INT"; "END FN"; "FN INT bar()"; "END FN"] in
  let blocks :=
    [mkBlock (str "FN foo(a, b)") [str " c : INT"] (str "END FN");
     mkBlock (str "FN INT bar()") [] (str "END FN")] in
  split 10 (getText document) = concat (map blockLines blocks) /\
  Forall wellFormedBlock blocks /\
  extractFunctionDeclarations document = Ok (map blockDeclaration blocks) /\
  map blockDeclaration blocks
  = [mkFunction (str "foo") [str "a"; str "b"; str "INT c"];
     mkFunction (str "bar") [str ""]].
Proof.
  cbv zeta.
  match goal with
  | |- ?A /\ ?B /\ _ /\ ?C =>
      assert (Hs : A) by (vm_compute; reflexivity);
      assert (Hb : B)
        by (repeat constructor; vm_compute; reflexivity);
      assert (Hd : C) by (vm_compute; reflexivity)
  end.
  split; [exact Hs|]. split; [exact Hb|]. split; [|exact Hd].
  exact (blocks_in_sequence _ _ Hs Hb).
Defined.

End StateProperties.

(** ** Closing lines, and reading a run forward *)

Section CompletenessFacts.
Import Js Trace Server Vocabulary.

(** X19. A line closes a function exactly when it is [END FN] with
    nothing but white space before and after it. *)
Theorem closing_line_layout :
  forall line,
    isEndFn line = true <->
    exists a b,
      line = a ++ str "END FN" ++ b /\
      Forall (fun c => isWhiteSpace c = true) a /\
      Forall (fun c => isWhiteSpace c = true) b.
Proof.
  intros line. split; [apply isEndFn_layout|].
  intros (a & b & -> & Ha & Hb). unfold isEndFn, jsstring_eqb.
  apply bool_decide_eq_true. apply trim_strip; try assumption.
  - discriminate.
  - vm_compute. reflexivity.
Qed.

(** Reading forward, a greedy class takes a whole run and goes on. *)
Lemma repForward_run ic cs u : forall min caps k bef rest res,
  Forall (fun c => cs_match ic cs c = true) u ->
  (min <= length u)%nat ->
  match rest with c :: _ => cs_match ic cs c = false | [] => True end ->
  k (mkState (rev u ++ bef) rest caps) = Some res ->
  repForward ic cs min caps k bef (u ++ rest) = Some res.
Proof.
  induction u as [|c u IH]; intros min caps k bef rest res Hall Hmin Hrest Hk.
  - simpl in Hmin, Hk |- *. assert (min = O) by lia. subst min.
    destruct rest as [|c rest]; simpl; [assumption|].
    rewrite Hrest. assumption.
  - inversion Hall as [|? ? Hc Hall']; subst.
    assert (Hrec : forall min', (min' <= length u)%nat ->
              repForward ic cs min' caps k (c :: bef) (u ++ rest) = Some res).
    { intros min' Hmin'. apply IH; try assumption.
      simpl in Hk. rewrite <- app_assoc in Hk. exact Hk. }
    simpl. rewrite Hc. destruct min as [|min'].
    + rewrite Hrec by lia. reflexivity.
    + apply Hrec. simpl in Hmin. lia.
Qed.

Lemma identifier_match ic caps k bef id rest res :
  isIdentifier id = true -> startsWithWord rest = false ->
  k (mkState (rev id ++ bef) rest caps) = Some res ->
  matcher ic Forward identifier (mkState bef (id ++ rest) caps) k = Some res.
Proof.
  intros Hid Hrest Hk. destruct id as [|c id]; [discriminate|].
  cbn [isIdentifier] in Hid. apply andb_true_iff in Hid.
  destruct Hid as [Hc Hall].
  unfold identifier. cbn [matcher advance after before captures app].
  rewrite cs_match_identStart, Hc.
  apply repForward_run.
  - apply Forall_forall. intros x Hx. rewrite cs_match_identPart.
    rewrite forallb_forall in Hall. apply Hall, list_elem_of_In, Hx.
  - lia.
  - destruct rest as [|d rest]; [exact I|].
    rewrite cs_match_identPart, identPart_word. exact Hrest.
  - cbn [rev] in Hk. rewrite <- app_assoc in Hk. exact Hk.
Qed.

End CompletenessFacts.

(** ** The variable pattern on a declaration line *)

Section CompletenessFacts2.
Import Js Trace Server Vocabulary.

Lemma variableTypes_capture ty rest (k : continuation) :
  In ty variableTypes ->
  matcher false Forward
    (RGroup 1 (alts (lit (str "STRING"))
                 [lit (str "INT"); lit (str "FLOAT"); lit (str "CHAR")]))
    (mkState [] (ty ++ rest) ∅) k
  = k (mkState (rev ty) rest (<[1%nat := ty]> ∅)).
Proof.
  unfold variableTypes. simpl In.
  intros [<-|[<-|[<-|[<-|[]]]]]; vm_compute;
    match goal with |- context [k ?y] => destruct (k y) end; reflexivity.
Qed.

Lemma word_head_last id :
  isIdentifier id = true ->
  startsWithSpace id = false /\
  exists c r, rev id = c :: r /\ isWordChar c = true.
Proof.
  intros Hid. destruct (identifier_chars _ Hid) as [Hne Hall]. split.
  - destruct id as [|c id]; [contradiction|]. inversion Hall; subst.
    cbn. apply wordChar_plain. assumption.
  - destruct (rev id) as [|c r] eqn:Hr.
    + apply (f_equal (@rev char)) in Hr. rewrite rev_involutive in Hr.
      contradiction.
    + exists c, r. split; [reflexivity|].
      rewrite Forall_forall in Hall. apply Hall.
      apply list_elem_of_In, in_rev. rewrite Hr. left. reflexivity.
Qed.

Lemma matcher_seq ic r1 r2 x k :
  matcher ic Forward (RSeq r1 r2) x k
  = matcher ic Forward r1 x (fun y => matcher ic Forward r2 y k).
Proof. reflexivity. Qed.

Lemma matcher_group ic i r x k :
  matcher ic Forward (RGroup i r) x k
  = matcher ic Forward r x
      (fun y => k (setCapture i (consumed Forward x y) y)).
Proof. reflexivity. Qed.

Lemma matcher_rep ic min cs x k :
  matcher ic Forward (RRep min cs) x k
  = repForward ic cs min (captures x) k (before x) (after x).
Proof. reflexivity. Qed.

Lemma notAfterFN_at_start aft caps k :
  matcher false Forward (RNotBehind notAfterFN) (mkState [] aft caps) k
  = k (mkState [] aft caps).
Proof. reflexivity. Qed.

(** On a line that is a type keyword, white space and an identifier, the
    variable pattern matches the whole line. *)
Lemma paramRegex_matches_line ty ws id :
  In ty variableTypes -> ws <> [] ->
  Forall (fun c => isWhiteSpace c = true) ws -> isIdentifier id = true ->
  matcher false Forward (pattern paramRegex)
    (mkState [] (ty ++ ws ++ id) ∅) Some
  = Some (mkState (rev (ty ++ ws ++ id)) []
            (<[2%nat := id]> (<[1%nat := ty]> ∅))).
Proof.
  intros Hty Hne Hws Hid.
  destruct (word_head_last _ Hid) as (Hhead & c & r & Hrev & Hc).
  cbn [pattern paramRegex terms].
  rewrite matcher_seq, notAfterFN_at_start, matcher_seq.
  rewrite variableTypes_capture by assumption.
  rewrite matcher_seq, matcher_rep. cbn [before after captures].
  replace (ws ++ id) with (ws ++ id ++ []) by (rewrite app_nil_r; reflexivity).
  apply repForward_run.
  - eapply Forall_impl; [exact Hws|]. intros d Hd. unfold cs_match. cbn.
    rewrite Hd. reflexivity.
  - destruct ws; [contradiction|simpl; lia].
  - destruct id as [|d id]; [discriminate|]. cbn [app].
    unfold cs_match. cbn. cbn in Hhead. rewrite Hhead. reflexivity.
  - rewrite matcher_seq, matcher_group.
    apply identifier_match; [assumption|reflexivity|].
    unfold setCapture, consumed, endIndex.
    cbn [before after captures matcher].
    rewrite !length_app, !length_rev.
    replace (length id + (length ws + length ty) - (length ws + length ty))%nat
      with (length (rev id)) by (rewrite length_rev; lia).
    rewrite take_app_length, rev_involutive.
    assert (Hwb : forall b caps,
              isWordBoundary (mkState (rev id ++ b) [] caps) = true).
    { intros b caps. unfold isWordBoundary. cbn [before after].
      rewrite Hrev. cbn [app]. rewrite Hc. reflexivity. }
    rewrite Hwb, app_nil_r, !rev_app_distr, <- !app_assoc.
    reflexivity.
Qed.

End CompletenessFacts2.

(** ** A declaration line is reported *)

Section CompletenessFacts3.
Import Js Trace Server Vocabulary.

Lemma search_here ic r caps bef aft y :
  matcher ic Forward r (mkState bef aft caps) Some = Some y ->
  search ic r caps bef aft = Some (length bef, y).
Proof. intros H. destruct aft; simpl; rewrite H; reflexivity. Qed.

Lemma exec_at_start R s y :
  global R = true -> lastIndex R = O ->
  matcher (ignoreCase R) Forward (pattern R) (mkState [] s ∅) Some = Some y ->
  exec R s
  = (Some (mkMatch 0 (take (endIndex y) s) (captures y)),
     setLastIndex (endIndex y) R).
Proof.
  intros Hg Hl Hm. unfold exec. rewrite Hg, Hl.
  change (length s <? 0)%nat with false. cbv iota.
  rewrite take_0, drop_0. cbn [rev].
  rewrite (search_here _ _ _ _ _ _ Hm). cbn [length].
  rewrite Nat.sub_0_r. reflexivity.
Qed.

Lemma exec_at_end R s :
  global R = true -> lastIndex R = length s ->
  matcher (ignoreCase R) Forward (pattern R) (mkState (rev s) [] ∅) Some
    = None ->
  exec R s = (None, setLastIndex 0 R).
Proof.
  intros Hg Hl Hm. unfold exec. rewrite Hg, Hl.
  rewrite Nat.ltb_irrefl, firstn_all, drop_all. cbn [search].
  rewrite Hm. reflexivity.
Qed.

Lemma paramRegex_not_at_end bef caps :
  matcher false Forward (pattern paramRegex) (mkState bef [] caps) Some = None.
Proof.
  destruct (matcher false Forward (pattern paramRegex) (mkState bef [] caps)
              Some) as [y|] eqn:Hm; [|reflexivity].
  apply matcher_sound in Hm. destruct Hm as (y' & Hf & _).
  apply paramRegex_match in Hf.
  destruct Hf as (ty & ws & id & Hin & [Ha _] & _).
  cbn [after] in Ha. apply variableTypes_length in Hin.
  destruct ty; [simpl in Hin; lia|discriminate].
Qed.

(** A line that is a type keyword, white space and an identifier is one
    declaration. *)
Lemma lineVariables_declaration ty ws id :
  In ty variableTypes -> ws <> [] ->
  Forall (fun c => isWhiteSpace c = true) ws -> isIdentifier id = true ->
  lineVariables (ty ++ ws ++ id) = [mkVariable id ty].
Proof.
  intros Hty Hne Hws Hid.
  pose proof (paramRegex_matches_line ty ws id Hty Hne Hws Hid) as Hm.
  unfold lineVariables.
  assert (Hlen : exists n, length (ty ++ ws ++ id) = S n).
  { destruct ty; [destruct Hty as [H|[H|[H|[H|[]]]]]; discriminate|].
    cbn. eauto. }
  destruct Hlen as [n Hn]. rewrite Hn. cbn [matchesFrom].
  rewrite (exec_at_start paramRegex _ _ eq_refl eq_refl Hm).
  unfold endIndex. cbn [before]. rewrite length_rev, firstn_all.
  rewrite (exec_at_end (setLastIndex _ paramRegex) _ eq_refl eq_refl
             (paramRegex_not_at_end _ _)).
  cbn [map]. unfold variableOf, groupOf. cbn [groups captures].
  rewrite lookup_insert_eq, lookup_insert_ne, lookup_insert_eq by discriminate.
  reflexivity.
Qed.

(** X20. A text that is just a type keyword (STRING, INT, FLOAT or CHAR),
    white space without a newline and an identifier is reported as
    exactly one variable, with that name and that type. *)
Theorem declaration_line_reported :
  forall u p ty ws id,
    In ty variableTypes -> ws <> [] ->
    Forall (fun c => isWhiteSpace c = true /\ c <> 10) ws ->
    isIdentifier id = true ->
    extractVariableDeclarations (mkDocument u (ty ++ ws ++ id) p)
    = Ok [mkVariable id ty].
Proof.
  intros u p ty ws id Hty Hne Hws Hid.
  rewrite extractVariableDeclarations_lines. cbn [getText].
  assert (Hnl : Forall (fun c => c <> 10) (ty ++ ws ++ id)).
  { assert (Hw : forall t, Forall (fun c => isWordChar c = true) t ->
                   Forall (fun c => c <> 10) t).
    { intros t Ht. eapply Forall_impl; [exact Ht|]. intros c Hc.
      apply wordChar_plain in Hc. tauto. }
    apply Forall_app. split.
    - apply Hw. destruct Hty as [<-|[<-|[<-|[<-|[]]]]]; repeat constructor.
    - apply Forall_app. split.
      + eapply Forall_impl; [exact Hws|]. cbn beta. tauto.
      + apply Hw. apply identifier_chars. assumption. }
  rewrite (split_none _ _ Hnl). cbn [map concat].
  rewrite lineVariables_declaration; try assumption.
  - rewrite app_nil_r. reflexivity.
  - eapply Forall_impl; [exact Hws|]. cbn beta. tauto.
Qed.

Lemma declaration_line_reported_witness :
  In (str "FLOAT") variableTypes /\ [32; 9] <> [] /\
  Forall (fun c => isWhiteSpace c = true /\ c <> 10) [32; 9] /\
  isIdentifier (str "rate_2") = true /\
  extractVariableDeclarations
    (mkDocument [] (str "FLOAT" ++ [32; 9] ++ str "rate_2")
       (fun _ => mkPosition 0 0))
  = Ok [mkVariable (str "rate_2") (str "FLOAT")].
Proof.
  assert (Hty : In (str "FLOAT") variableTypes)
    by (right; right; left; reflexivity).
  assert (Hne : [32; 9] <> @nil char) by discriminate.
  assert (Hws : Forall (fun c => isWhiteSpace c = true /\ c <> 10) [32; 9])
    by (repeat constructor; discriminate).
  assert (Hid : isIdentifier (str "rate_2") = true) by reflexivity.
  split; [exact Hty|]. split; [exact Hne|]. split; [exact Hws|].
  split; [exact Hid|].
  exact (declaration_line_reported [] (fun _ => mkPosition 0 0)
           _ _ _ Hty Hne Hws Hid).
Defined.

End CompletenessFacts3.

Section ClosingLineExample.
Import Js Trace Server Vocabulary.

Lemma closing_line_layout_witness :
  (exists a b,
     [9] ++ str "END FN" ++ [32; 13] = a ++ str "END FN" ++ b /\
     Forall (fun c => isWhiteSpace c = true) a /\
     Forall (fun c => isWhiteSpace c = true) b) /\
  isEndFn ([9] ++ str "END FN" ++ [32; 13]) = true.
Proof.
  assert (H : exists a b,
            [9] ++ str "END FN" ++ [32; 13] = a ++ str "END FN" ++ b /\
            Forall (fun c => isWhiteSpace c = true) a /\
            Forall (fun c => isWhiteSpace c = true) b).
  { exists [9], [32; 13]. split; [reflexivity|]. split; repeat constructor. }
  split; [exact H|].
  exact (proj2 (closing_line_layout _) H).
Defined.

End ClosingLineExample.

(** ** The variable extractor and the FN keyword *)

Section KeywordFacts.
Import Js Trace Server Vocabulary.

(** Where a declaration of one line comes from, and what does not stand
    in front of it. *)
Lemma lineVariables_not_behind_fn line :
  Forall (fun v =>
            exists pre ws post,
              line = pre ++ containerName v ++ ws ++ var_name v ++ post /\
              In (containerName v) variableTypes /\
              ws <> [] /\ Forall (fun c => isWhiteSpace c = true) ws /\
              isIdentifier (var_name v) = true /\
              behindFnKeyword pre = false)
    (lineVariables line).
Proof.
  unfold lineVariables. apply Forall_map.
  apply (matchesFrom_Forall _ paramRegex line eq_refl).
  intros i m R' He. apply exec_layout in He.
  destruct He as (x & y & Hf & Hr & Hs & _ & Hc & Hg & _).
  pose proof (paramRegex_match _ _ Hf) as (_ & _ & _ & _ & _ & _ & Hnb).
  apply paramRegex_shape in Hf.
  destruct Hf as (ty & ws & id & Hin & Hr' & Hcap & Hne & Hws & Hid & _).
  pose proof (reads_inj _ _ _ _ Hr Hr') as Hm.
  unfold variableOf, groupOf. rewrite Hg, Hcap, Hc.
  rewrite lookup_insert_eq, lookup_insert_ne, lookup_insert_eq by discriminate.
  cbn [var_name containerName].
  exists (rev (before x)), ws, (after y).
  split; [rewrite Hs, Hm, <- !app_assoc; reflexivity|].
  repeat (split; [assumption|]).
  destruct (behindFnKeyword (rev (before x))) eqn:E; [exfalso|reflexivity].
  unfold behindFnKeyword in E. cbv zeta in E.
  apply andb_true_iff in E. destruct E as [E1 E2].
  apply bool_decide_eq_true in E1. apply negb_true_iff in E2.
  set (p := take (length (rev (before x)) - 3) (rev (before x))) in *.
  assert (Hb : before x = rev (p ++ str "FN" ++ [32])).
  { change (str "FN" ++ [32]) with (str "FN "). rewrite <- E1.
    unfold p. rewrite take_drop, rev_involutive. reflexivity. }
  assert (Hw : Forall (fun c => isWhiteSpace c = true) [32])
    by (repeat constructor).
  destruct (notAfterFN_found p [32] (after x) E2 ltac:(discriminate) Hw)
    as [z Hz].
  rewrite <- Hb, <- Hc in Hz. destruct x as [bx ax cx].
  cbn [before after captures] in Hz. congruence.
Qed.

(** Two ways of cutting a text at a white space character that follows
    text without white space. *)
Lemma cut_at_space a : forall s r pre t w r',
  Forall (fun c => isWhiteSpace c = false) a -> isWhiteSpace s = true ->
  Forall (fun c => isWhiteSpace c = false) t -> isWhiteSpace w = true ->
  a ++ s :: r = pre ++ t ++ w :: r' ->
  (pre ++ t = a /\ r = r') \/
  (exists pre', pre = a ++ s :: pre' /\ r = pre' ++ t ++ w :: r').
Proof.
  induction a as [|c a IH]; intros s r pre t w r' Ha Hs Ht Hw H.
  - destruct pre as [|d pre]; cbn [app] in H.
    + destruct t as [|d t]; cbn [app] in H.
      * inversion H; subst. left. split; reflexivity.
      * inversion H; subst. inversion Ht; subst. congruence.
    + inversion H; subst. right. exists pre. split; reflexivity.
  - inversion Ha as [|? ? Hc Ha']; subst.
    destruct pre as [|d pre]; cbn [app] in H.
    + destruct t as [|d t]; cbn [app] in H.
      * inversion H; subst. congruence.
      * inversion H as [[Hd H']]; subst d. inversion Ht as [|? ? _ Ht']; subst.
        destruct (IH s r [] t w r' Ha' Hs Ht' Hw H') as [[He Hr]|(q & Hq & _)].
        -- left. cbn [app] in He |- *. subst. split; reflexivity.
        -- destruct a; discriminate.
    + inversion H as [[Hd H']]; subst d.
      destruct (IH s r pre t w r' Ha' Hs Ht Hw H') as [[He Hr]|(q & Hq & Hr)].
      * left. cbn [app]. subst. split; reflexivity.
      * right. exists q. subst. split; reflexivity.
Qed.

(** After white space and an identifier at the end of a text, no word is
    followed by white space. *)
Lemma no_space_after_identifier ws : forall id pre t w r',
  Forall (fun c => isWhiteSpace c = true) ws ->
  Forall (fun c => isWhiteSpace c = false) id ->
  Forall (fun c => isWhiteSpace c = false) t -> t <> [] ->
  isWhiteSpace w = true ->
  ws ++ id <> pre ++ t ++ w :: r'.
Proof.
  induction ws as [|c ws IH]; intros id pre t w r' Hws Hid Ht Hne Hw H.
  - cbn [app] in H. subst id.
    apply Forall_app in Hid. destruct Hid as [_ Hid].
    apply Forall_app in Hid. destruct Hid as [_ Hid].
    inversion Hid; subst. congruence.
  - inversion Hws as [|? ? Hc Hws']; subst.
    destruct pre as [|d pre]; cbn [app] in H.
    + destruct t as [|d t]; [congruence|]. cbn [app] in H.
      inversion H; subst. inversion Ht; subst. congruence.
    + inversion H as [[Hd H']]. exact (IH id pre t w r' Hws' Hid Ht Hne Hw H').
Qed.

Lemma variableTypes_plain ty :
  In ty variableTypes ->
  Forall (fun c => isWhiteSpace c = false) ty /\ (3 <= length ty)%nat.
Proof.
  intros [<-|[<-|[<-|[<-|[]]]]]; (split; [repeat constructor|simpl; lia]).
Qed.

(** No type keyword ends with another one. *)
Lemma variableTypes_suffix pre ty ty' :
  In ty variableTypes -> In ty' variableTypes -> pre ++ ty' = ty -> pre = [].
Proof.
  intros [<-|[<-|[<-|[<-|[]]]]] [<-|[<-|[<-|[<-|[]]]]] H;
    repeat match type of H with
           | context [str ?s] =>
               let v := eval vm_compute in (str s) in
               change (str s) with v in H
           end;
    do 7 (destruct pre as [|? pre];
          [cbn [app] in H; try discriminate H; reflexivity|]);
    cbn [app] in H; discriminate H.
Qed.

(** In a line made of FN, a space, a type keyword, white space and an
    identifier, the only type keyword followed by white space stands right
    behind FN and the space. *)
Lemma fn_line_occurrence ty ws id pre ty' ws' rest :
  In ty variableTypes -> ws <> [] ->
  Forall (fun c => isWhiteSpace c = true) ws -> isIdentifier id = true ->
  In ty' variableTypes -> ws' <> [] ->
  Forall (fun c => isWhiteSpace c = true) ws' ->
  str "FN " ++ ty ++ ws ++ id = pre ++ ty' ++ ws' ++ rest ->
  pre = str "FN ".
Proof.
  intros Hty Hne Hws Hid Hty' Hne' Hws' H.
  destruct (variableTypes_plain _ Hty) as [Hp _].
  destruct (variableTypes_plain _ Hty') as [Hp' Hlen'].
  assert (Hidp : Forall (fun c => isWhiteSpace c = false) id).
  { eapply Forall_impl; [apply identifier_chars; exact Hid|].
    intros c Hc. apply wordChar_plain in Hc. tauto. }
  destruct ws as [|w ws]; [congruence|].
  destruct ws' as [|w' ws']; [congruence|].
  inversion Hws as [|? ? Hw Hws1]; subst.
  inversion Hws' as [|? ? Hw' _]; subst.
  change (str "FN " ++ ty ++ (w :: ws) ++ id)
    with ([70; 78] ++ 32 :: (ty ++ w :: (ws ++ id))) in H.
  change (pre ++ ty' ++ (w' :: ws') ++ rest)
    with (pre ++ ty' ++ w' :: (ws' ++ rest)) in H.
  apply cut_at_space in H; try assumption; try reflexivity;
    [|repeat constructor].
  destruct H as [[He _]|(pre1 & -> & H)].
  - apply (f_equal length) in He. rewrite length_app in He. simpl in He. lia.
  - apply cut_at_space in H; try assumption.
    destruct H as [[He _]|(pre2 & -> & H)].
    + apply variableTypes_suffix in He; try assumption. subst pre1.
      reflexivity.
    + exfalso. revert H. apply no_space_after_identifier; try assumption.
      destruct ty'; [simpl in Hlen'; lia|discriminate].
Qed.

(** So such a line declares no variable. *)
Lemma lineVariables_behind_fn ty ws id :
  In ty variableTypes -> ws <> [] ->
  Forall (fun c => isWhiteSpace c = true) ws -> isIdentifier id = true ->
  lineVariables (str "FN " ++ ty ++ ws ++ id) = [].
Proof.
  intros Hty Hne Hws Hid.
  pose proof (lineVariables_not_behind_fn (str "FN " ++ ty ++ ws ++ id)) as H.
  destruct (lineVariables (str "FN " ++ ty ++ ws ++ id)) as [|v l];
    [reflexivity|exfalso].
  inversion H as [|? ? Hv _]; subst.
  destruct Hv as (pre & ws' & post & Hl & Hin & Hne' & Hws' & _ & Hfn).
  apply fn_line_occurrence in Hl; try assumption.
  subst pre. vm_compute in Hfn. discriminate.
Qed.

End KeywordFacts.

Section FurtherProperties.
Import Js Trace Server Vocabulary.

(** C5. On any document the variable extractor finishes, and every
    declaration it reports has one of the types STRING, INT, FLOAT, CHAR,
    so never BOOL, and stands in a line of the document as that type,
    white space and the reported identifier, at a place that is not
    immediately preceded by the keyword FN and a space. A text made of FN,
    a space, one of the four types, white space without a newline and an
    identifier declares no variable, while the same text without FN and
    the space declares that identifier with that type. For the lines
    [FN INT getX() END FN] and [INT y] the extractor reports exactly [y]
    of type [INT], nothing for the return type of [getX]; a line
    [BOOL flag] gives nothing. *)
Theorem variables_typed_and_not_behind_fn :
  (forall document,
     exists decls,
       extractVariableDeclarations document = Ok decls /\
       Forall (fun v =>
                 In (containerName v) variableTypes /\
                 containerName v <> str "BOOL" /\
                 exists line pre ws post,
                   In line (split 10 (getText document)) /\
                   line = pre ++ containerName v ++ ws ++ var_name v ++ post /\
                   ws <> [] /\ Forall (fun c => isWhiteSpace c = true) ws /\
                   isIdentifier (var_name v) = true /\
                   behindFnKeyword pre = false) decls) /\
  (forall u p ty ws id,
     In ty variableTypes -> ws <> [] ->
     Forall (fun c => isWhiteSpace c = true /\ c <> 10) ws ->
     isIdentifier id = true ->
     extractVariableDeclarations
       (mkDocument u (str "FN " ++ ty ++ ws ++ id) p) = Ok [] /\
     extractVariableDeclarations (mkDocument u (ty ++ ws ++ id) p)
     = Ok [mkVariable id ty]) /\
  (forall u p,
     extractVariableDeclarations
       (mkDocument u (text ["FN INT getX() END FN"; "INT y"]) p)
     = Ok [mkVariable (str "y") (str "INT")] /\
     extractVariableDeclarations (mkDocument u (text ["BOOL flag"]) p)
     = Ok []).
Proof.
  split; [|split].
  - intros document. rewrite extractVariableDeclarations_lines.
    eexists. split; [reflexivity|].
    apply Forall_concat, Forall_map, Forall_forall. intros line Hline.
    apply list_elem_of_In in Hline.
    eapply Forall_impl; [apply lineVariables_not_behind_fn|].
    intros v (pre & ws & post & Hl & Hin & Hne & Hws & Hid & Hfn).
    split; [assumption|]. split.
    + intros Hb. rewrite Hb in Hin. vm_compute in Hin.
      repeat (destruct Hin as [Hin|Hin]; [discriminate|]). destruct Hin.
    + exists line, pre, ws, post. auto 10.
  - intros u p ty ws id Hty Hne Hws Hid.
    assert (Hws' : Forall (fun c => isWhiteSpace c = true) ws)
      by (eapply Forall_impl; [exact Hws|]; cbn beta; tauto).
    assert (Hnl : Forall (fun c => c <> 10) (ty ++ ws ++ id)).
    { assert (Hw : forall t, Forall (fun c => isWordChar c = true) t ->
                     Forall (fun c => c <> 10) t).
      { intros t Ht. eapply Forall_impl; [exact Ht|]. intros c Hc.
        apply wordChar_plain in Hc. tauto. }
      apply Forall_app. split.
      - apply Hw. destruct Hty as [<-|[<-|[<-|[<-|[]]]]]; repeat constructor.
      - apply Forall_app. split.
        + eapply Forall_impl; [exact Hws|]. cbn beta. tauto.
        + apply Hw. apply identifier_chars. assumption. }
    assert (Hnl' : Forall (fun c => c <> 10) (str "FN " ++ ty ++ ws ++ id)).
    { apply Forall_app. split; [repeat constructor; discriminate|assumption]. }
    rewrite !extractVariableDeclarations_lines. cbn [getText].
    rewrite (split_none _ _ Hnl), (split_none _ _ Hnl'). cbn [map concat].
    rewrite lineVariables_behind_fn, lineVariables_declaration by assumption.
    split; reflexivity.
  - intros u p. split; vm_compute; reflexivity.
Qed.

Lemma variables_typed_and_not_behind_fn_witness :
  In (str "INT") variableTypes /\ [32] <> [] /\
  Forall (fun c => isWhiteSpace c = true /\ c <> 10) [32] /\
  isIdentifier (str "getX") = true /\
  extractVariableDeclarations
    (mkDocument [] (str "FN " ++ str "INT" ++ [32] ++ str "getX")
       (fun _ => mkPosition 0 0)) = Ok [] /\
  extractVariableDeclarations
    (mkDocument [] (str "INT" ++ [32] ++ str "getX")
       (fun _ => mkPosition 0 0))
  = Ok [mkVariable (str "getX") (str "INT")].
Proof.
  assert (Hty : In (str "INT") variableTypes) by (right; left; reflexivity).
  assert (Hne : [32] <> @nil char) by discriminate.
  assert (Hws : Forall (fun c => isWhiteSpace c = true /\ c <> 10) [32])
    by (repeat constructor; discriminate).
  assert (Hid : isIdentifier (str "getX") = true) by reflexivity.
  split; [exact Hty|]. split; [exact Hne|]. split; [exact Hws|].
  split; [exact Hid|].
  exact (proj1 (proj2 variables_typed_and_not_behind_fn)
           [] (fun _ => mkPosition 0 0) (str "INT") [32] (str "getX")
           Hty Hne Hws Hid).
Defined.

(** C6. With related information declared by the client, the validator
    builds for [ABC def GHI] two diagnostics that each carry the notes
    [Spelling matters] and [Particularly for names] at their own range,
    and returns neither: its answer is the empty list. Whatever the client
    declared at initialisation, and for every document, the validator
    returns the empty list, so no returned diagnostic carries the notes. *)
Theorem related_notes_built_but_not_returned :
  (forall getConfiguration u p,
    let capabilities :=
      mkCapabilities None
        (Some (mkTextDocumentCaps (Some (mkPublishCaps (Some true))))) in
    let sv := onInitialize capabilities initialServer in
    let document := mkDocument u (str "ABC def GHI") p in
    let notes rg :=
      Some [mkRelated (mkLocation u rg) (str "Spelling matters");
            mkRelated (mkLocation u rg) (str "Particularly for names")] in
    let rg1 := mkRange (p 0%nat) (p 3%nat) in
    let rg2 := mkRange (p 8%nat) (p 11%nat) in
    declaresRelatedInformation capabilities /\
    hasDiagnosticRelatedInformationCapability sv = true /\
    validateWith sv (globalSettings sv) document
    = Ok (mkRun 2 []
            [mkDiagnostic Warning rg1 (str "ABC is all uppercase.") (str "ex")
               (notes rg1);
             mkDiagnostic Warning rg2 (str "GHI is all uppercase.") (str "ex")
               (notes rg2)]) /\
    validateTextDocument getConfiguration sv document = (Ok [], sv)) /\
  (forall capabilities sv0 getConfiguration document,
     fst (validateTextDocument getConfiguration
            (onInitialize capabilities sv0) document) = Ok []).
Proof.
  split.
  - intros g u p. cbv zeta.
    split; [eexists _, _; repeat split|].
    split; [reflexivity|].
    split; vm_compute; reflexivity.
  - intros capabilities sv0 g document. apply validateTextDocument_empty.
Qed.

(** X21. Every diagnostic object the validation loop builds carries as
    [relatedInformation] the two notes [Spelling matters] and
    [Particularly for names], both at the object's own range in the
    document, exactly when the client declared support for related
    information at initialisation, and carries none exactly when it did
    not. *)
Theorem built_notes_iff_declared :
  forall capabilities sv0 settings document,
    exists run,
      validateWith (onInitialize capabilities sv0) settings document = Ok run /\
      Forall (fun d =>
                (relatedInformation d
                 = Some [mkRelated (mkLocation (uri document) (range d))
                           (str "Spelling matters");
                         mkRelated (mkLocation (uri document) (range d))
                           (str "Particularly for names")]
                 <-> declaresRelatedInformation capabilities) /\
                (relatedInformation d = None
                 <-> ~ declaresRelatedInformation capabilities))
        (built run).
Proof.
  intros capabilities sv0 settings document.
  rewrite validateWith_total. cbv zeta. eexists. split; [reflexivity|].
  cbn [built]. apply Forall_map, Forall_forall. intros m _.
  pose proof (onInitialize_relatedInformation capabilities sv0) as Hcap.
  unfold makeDiagnostic. cbn [relatedInformation range].
  destruct (hasDiagnosticRelatedInformationCapability
              (onInitialize capabilities sv0)).
  - split.
    + split; [intros _; apply Hcap; reflexivity|reflexivity].
    + split; [discriminate|]. intros Hn. exfalso. apply Hn, Hcap. reflexivity.
  - split.
    + split; [discriminate|]. intros Hdecl. apply Hcap in Hdecl.
      discriminate.
    + split; [|reflexivity]. intros _ Hdecl. apply Hcap in Hdecl.
      discriminate.
Qed.

End FurtherProperties.
